(** * The colour picker of viron: hex validation, conversion, pointer mapping
    and the event handlers of [src/core/mixin.js] (second script, the
    colorpicker component), as a shallow embedding.

    Conventions of the embedding.
    - A JavaScript string is a [string] holding its UTF-8 bytes.  Hex digits
      and [#] are ASCII; the only non-ASCII character the code mentions is
      the full-width space U+3000, the byte sequence E3 80 80.
    - A JavaScript number is the rational [Q] that the double denotes;
      [Math.round] is [fun q => Qfloor (q + 1/2)].  The pointer mapper works
      on whole pixels and percentages and is stated in exact arithmetic, on
      rectangles of positive width and height.  Where the rounding of the
      double arithmetic shows in a result ([getHsv], the alpha slider, the
      distance of a touch) the operations are those of IEEE 754 binary64
      (module [Double], on the Standard Library's [SpecFloat]).
    - Objects that the handlers share or mutate live in a heap
      ([gmap positive object]); a property holding an object is a reference.
    - [tinycolor2] is an external library: the development is parametric in
      an interface [TinyColor]; a reference instance follows the component
      and serves the closed examples. *)

From Stdlib Require Import ZArith QArith Qround Qminmax Qabs Lia Lqa Ascii String.
From Stdlib Require SpecFloat.
From stdpp Require Import gmap strings pretty.

(** ** Strings and the two hex patterns *)

(** The character class [[0-9A-Fa-f]]. *)
Definition isHexDigit (c : ascii) : bool :=
  let n := nat_of_ascii c in
  (((48 <=? n) && (n <=? 57)) || ((65 <=? n) && (n <=? 70)) || ((97 <=? n) && (n <=? 102)))%nat.

Fixpoint allHexDigits (s : string) : bool :=
  match s with
  | EmptyString => true
  | String c rest => isHexDigit c && allHexDigits rest
  end.

(** The optional leading [#] of both patterns ([^#?]). *)
Definition dropPoundKey (s : string) : string :=
  match s with
  | String "#"%char rest => rest
  | _ => s
  end.

(** [value.match(/^#?([0-9A-Fa-f]{3}|[0-9A-Fa-f]{6})$/)], as a boolean. *)
Definition isHex (value : string) : bool :=
  let digits := dropPoundKey value in
  allHexDigits digits && ((String.length digits =? 3) || (String.length digits =? 6))%nat.

(** [value.match(/^#?[0-9A-Fa-f]{0,6}$/)], as a boolean. *)
Definition isTypingHex (value : string) : bool :=
  let digits := dropPoundKey value in
  allHexDigits digits && (String.length digits <=? 6)%nat.

(** [value.match('^#')] is null exactly when the string does not start
    with [#]; then the pound key is put in front. *)
Definition concatenatePoundKey (value : string) : string :=
  match value with
  | String "#"%char _ => value
  | _ => String "#"%char value
  end.

(** U+3000, IDEOGRAPHIC SPACE, in UTF-8. *)
Definition fullWidthSpace : string :=
  String (ascii_of_nat 227) (String (ascii_of_nat 128) (String (ascii_of_nat 128) EmptyString)).

(** [value.replace(/\u3000/g, ' ')]: every full-width space becomes one
    ASCII space (the replacement string of the source is a single
    half-width space, not the empty string). *)
Fixpoint replaceFullWidthSpace (value : string) : string :=
  match value with
  | String c1 (String c2 (String c3 rest as t2) as t1) =>
      if ((nat_of_ascii c1 =? 227) && (nat_of_ascii c2 =? 128) && (nat_of_ascii c3 =? 128))%nat
      then String " "%char (replaceFullWidthSpace rest)
      else String c1 (replaceFullWidthSpace t1)
  | String c1 t1 => String c1 (replaceFullWidthSpace t1)
  | EmptyString => EmptyString
  end.

(** [normalizeHexValue] (lines 212-234).  [previous] is
    [this.opts.color.value], whatever it holds; the result is either a
    string or that previous value.  The [isNull] and [isUndefined] tests
    are dead for a string argument. *)
Definition normalizeHexValue {A : Type} (ofString : string -> A) (previous : A)
    (value : string) : A :=
  let value := replaceFullWidthSpace value in
  let value := if isHex value then concatenatePoundKey value else value in
  if isTypingHex value then ofString value else previous.

(** ** Data model *)

Module COLOR_CODE.
Definition HEX : string := "HEX".
Definition RGBA : string := "RGBA".
Definition HSV : string := "HSV".
End COLOR_CODE.

(** An object [{r, g, b, a}]. *)
Module Rgba.
Record t : Type := make { r : Q; g : Q; b : Q; a : Q }.
End Rgba.

(** An object [{h, s, v}]. *)
Module Hsv.
Record t : Type := make { h : Q; s : Q; v : Q }.
End Hsv.

(** [getBoundingClientRect()] of the canvas container. *)
Module Rect.
Record t : Type := make { left : Q; top : Q; width : Q; height : Q }.
End Rect.

(** A colour value as the converter receives and returns it: the content
    of a hex string, of an rgba object or of an hsv object, or
    [undefined]. *)
Inductive colorValue : Type :=
| VString (str : string)
| VRgba (c : Rgba.t)
| VHsv (c : Hsv.t)
| VUndefined.

(** What a [value] property holds: a primitive string, [undefined], or a
    reference to an object of the heap. *)
Inductive slot : Type :=
| SString (str : string)
| SRef (l : positive)
| SUndefined.

Inductive object : Type :=
| ColorObject (format : string) (value : slot)
| RgbaObject (c : Rgba.t)
| HsvObject (c : Hsv.t)
| MapObject (m : gmap string bool).

(** ** Completions: a normal result or a thrown [TypeError]

    A reference that is dangling or points to an object of another kind
    than the property read from it is reported as [TypeError] too; the
    states built by the component never contain one. *)
Inductive completion (A : Type) : Type :=
| Normal (x : A)
| TypeError.
Arguments Normal {A} x.
Arguments TypeError {A}.

Definition bind {A B : Type} (c : completion A) (k : A -> completion B) : completion B :=
  match c with
  | Normal x => k x
  | TypeError => TypeError
  end.

Notation "'let*' x ':=' c 'in' k" := (bind c (fun x => k))
  (at level 10, x pattern, c at level 100, k at level 200).

(** ** The interface of tinycolor2 used by the component *)

Class TinyColor : Type := {
  (** the colour objects of the library *)
  tinycolorObject : Type;
  (** [tinycolor(input)] for a string or an object *)
  tinycolor : colorValue -> tinycolorObject;
  (** [tinycolor(`hsv(${h}, ${s}%, ${v}%)`)] *)
  tinycolorHsvString : Q -> Q -> Q -> tinycolorObject;
  toHexString : tinycolorObject -> string;
  toRgb : tinycolorObject -> Rgba.t;
  (** [toHsv()]: [h] in degrees, [s] and [v] as fractions of 1 *)
  toHsv : tinycolorObject -> Hsv.t
}.

(** ** Numbers *)

Local Open Scope Q_scope.

(** [Math.round]: the nearest integer, halves towards +infinity. *)
Definition Math_round (q : Q) : Z := Qfloor (q + (1 # 2)).

Definition Qgtb (x y : Q) : bool := if Qlt_le_dec y x then true else false.
Definition Qltb (x y : Q) : bool := if Qlt_le_dec x y then true else false.

(** ** Double arithmetic

    The numbers of JavaScript are the binary64 floats of IEEE 754; their
    operations round to the nearest double, ties to even. *)
Module Double.

Definition t : Type := SpecFloat.spec_float.

Definition prec : Z := 53.
Definition emax : Z := 1024.

Definition add (x y : t) : t := SpecFloat.SFadd prec emax x y.
Definition sub (x y : t) : t := SpecFloat.SFsub prec emax x y.
Definition mul (x y : t) : t := SpecFloat.SFmul prec emax x y.
Definition div (x y : t) : t := SpecFloat.SFdiv prec emax x y.
Definition sqrt (x : t) : t := SpecFloat.SFsqrt prec emax x.
(** [x <= y] and [x < y]; both are false when an operand is NaN. *)
Definition leb (x y : t) : bool := SpecFloat.SFleb x y.
Definition ltb (x y : t) : bool := SpecFloat.SFltb x y.

(** The double nearest to a rational: the correctly rounded quotient of
    its numerator and denominator.  A rational that is the value of a
    double is mapped to that double, a decimal to the double that the
    literal denotes. *)
Definition ofQ (q : Q) : t :=
  let q := Qred q in
  match Qnum q with
  | Z0 => SpecFloat.S754_zero false
  | Zpos n => div (SpecFloat.S754_finite false n 0) (SpecFloat.S754_finite false (Qden q) 0)
  | Zneg n => div (SpecFloat.S754_finite true n 0) (SpecFloat.S754_finite false (Qden q) 0)
  end.

Definition ofZ (z : Z) : t := ofQ (inject_Z z).

(** The rational that a double denotes.  An infinity is carried as the
    least magnitude that rounds to it, [2 ^ 1024], which [ofQ] maps back
    to the infinity; NaN has no rational (the functions that go through
    [toQ] multiply and divide by 100 only, which gives no NaN). *)
Definition toQ (x : t) : Q :=
  match x with
  | SpecFloat.S754_finite s m e =>
      let m := if s then Zneg m else Zpos m in
      match e with
      | Zneg k => Qred (m # (2 ^ k))
      | _ => inject_Z (m * 2 ^ e)
      end
  | SpecFloat.S754_infinity s => inject_Z (if s then - 2 ^ 1024 else 2 ^ 1024)
  | _ => 0
  end.

(** [x * y] and [x / y] on the rationals of two doubles. *)
Definition product (x y : Q) : Q := toQ (mul (ofQ x) (ofQ y)).
Definition quotient (x y : Q) : Q := toQ (div (ofQ x) (ofQ y)).

End Double.

(** ** The coordinate mapper: the arithmetic of [getColorObject] *)

(** Lines 394-395: [Math.round(touchX - containerRect.left)]. *)
Definition offsetX (rect : Rect.t) (touchX : Q) : Q :=
  inject_Z (Math_round (touchX - Rect.left rect)).
Definition offsetY (rect : Rect.t) (touchY : Q) : Q :=
  inject_Z (Math_round (touchY - Rect.top rect)).

(** Lines 397-402: the two tests on [x]. *)
Definition clampX (rect : Rect.t) (x : Q) : Q :=
  let x := if Qgtb x (Rect.width rect) then Rect.width rect else x in
  let x := if Qltb x 0 then 0 else x in
  x.

(** Lines 403-408: the two tests on [y]; a negative [y] becomes [.1]. *)
Definition clampY (rect : Rect.t) (y : Q) : Q :=
  let y := if Qgtb y (Rect.height rect) then Rect.height rect else y in
  let y := if Qltb y 0 then 1 # 10 else y in
  y.

(** Lines 411-412. *)
Definition saturationOf (rect : Rect.t) (x : Q) : Q :=
  inject_Z (Math_round (x / Rect.width rect * 100)).
Definition brightnessOf (rect : Rect.t) (y : Q) : Q :=
  100 - inject_Z (Math_round (y / Rect.height rect * 100)).

(** The colour of a pointer position for a given hue (lines 394-420
    without the read of [this.getHsv().h]). *)
Definition colorObjectAt (hue : Q) (rect : Rect.t) (touchX touchY : Q) : Hsv.t :=
  let x := clampX rect (offsetX rect touchX) in
  let y := clampY rect (offsetY rect touchY) in
  Hsv.make hue (saturationOf rect x) (brightnessOf rect y).

(** ** The heap and the state of the component *)

(** Host-supplied [this.opts]. *)
Module Opts.
Record t : Type := make {
  color : option positive;
  selectablecolorcode : option positive;
  hsv : option Hsv.t;
  isshown : bool
}.
End Opts.

(** The component: [this.color], [this.isCatcherActive], [this.opts] and
    the closure variables [selectableColorCode], [latestValidHue] and
    [lastValidColor], together with the heap they point into. *)
Module Tag.
Record t : Type := make {
  heap : gmap positive object;
  color : positive;
  selectableColorCode : positive;
  latestValidHue : Q;
  lastValidColor : string;
  isCatcherActive : bool;
  opts : Opts.t
}.

Definition setHeap (hp : gmap positive object) (st : t) : t :=
  make hp (color st) (selectableColorCode st) (latestValidHue st)
       (lastValidColor st) (isCatcherActive st) (opts st).
Definition setLatestValidHue (hue : Q) (st : t) : t :=
  make (heap st) (color st) (selectableColorCode st) hue
       (lastValidColor st) (isCatcherActive st) (opts st).
Definition setIsCatcherActive (flag : bool) (st : t) : t :=
  make (heap st) (color st) (selectableColorCode st) (latestValidHue st)
       (lastValidColor st) flag (opts st).
End Tag.

(** The arguments of one call of [this.opts.oncolorchange(color, hsv)]. *)
Module Emitted.
Record t : Type := make { color : positive; hsv : option Hsv.t }.
End Emitted.

(** A new object at a location that the heap does not use yet. *)
Definition alloc (hp : gmap positive object) (o : object) : positive * gmap positive object :=
  let l := fresh (dom hp) in (l, <[l := o]> hp).

(** Reading the two properties of a colour object. *)
Definition readColor (hp : gmap positive object) (l : positive) : completion (string * slot) :=
  match hp !! l with
  | Some (ColorObject format value) => Normal (format, value)
  | _ => TypeError
  end.

(** The content of a [value] property, as the converter sees it. *)
Definition readSlot (hp : gmap positive object) (sl : slot) : completion colorValue :=
  match sl with
  | SString str => Normal (VString str)
  | SUndefined => Normal VUndefined
  | SRef l =>
      match hp !! l with
      | Some (RgbaObject c) => Normal (VRgba c)
      | Some (HsvObject c) => Normal (VHsv c)
      | _ => TypeError
      end
  end.

(** Storing what the converter returned: strings are primitive, objects
    are new. *)
Definition storeValue (hp : gmap positive object) (val : colorValue) : slot * gmap positive object :=
  match val with
  | VString str => (SString str, hp)
  | VUndefined => (SUndefined, hp)
  | VRgba c => let '(l, hp') := alloc hp (RgbaObject c) in (SRef l, hp')
  | VHsv c => let '(l, hp') := alloc hp (HsvObject c) in (SRef l, hp')
  end.

(** The object behind [selectableColorCode], a map from format names to
    truth values; [selectableColorCode[key]] is [default false (m !! key)]. *)
Definition readMap (hp : gmap positive object) (l : positive) : completion (gmap string bool) :=
  match hp !! l with
  | Some (MapObject m) => Normal m
  | _ => TypeError
  end.

Definition selectable (m : gmap string bool) (key : string) : bool :=
  default false (m !! key).

(** [this.color.format] and [this.color.value]. *)
Definition currentColor (st : Tag.t) : completion (string * slot) :=
  readColor (Tag.heap st) (Tag.color st).

(** The default of [this.opts.selectablecolorcode]. *)
Definition allSelectable : gmap string bool :=
  <[COLOR_CODE.HEX := true]> (<[COLOR_CODE.RGBA := true]> ∅).

(** ** The format cycler: the do-while loop of lines 481-483

    [fuel] bounds the number of iterations; [None] is a loop that has not
    finished within the bound. *)
Definition order : list string := [COLOR_CODE.HEX; COLOR_CODE.RGBA].

Definition nextIndex (index : nat) : nat :=
  if (index =? length order - 1)%nat then 0%nat else (index + 1)%nat.

Fixpoint cycleIndex (fuel : nat) (m : gmap string bool) (index : nat) : option nat :=
  match fuel with
  | O => None
  | S fuel' =>
      let index := nextIndex index in
      if negb (selectable m (order !!! index))
      then cycleIndex fuel' m index
      else Some index
  end.

(** [order.indexOf(format)]; [None] is [-1]. *)
Fixpoint indexOf (l : list string) (format : string) : option nat :=
  match l with
  | [] => None
  | x :: rest => if String.eqb x format then Some 0%nat else S <$> indexOf rest format
  end.

Section Component.
Context `{TinyColor}.

(** ** The converter *)

(** Lines 346-354: the export of a tinycolor object. *)
Definition exportColor (colorObj : tinycolorObject) (exportColorcode : string) : colorValue :=
  if String.eqb exportColorcode COLOR_CODE.HEX then VString (toHexString colorObj)
  else if String.eqb exportColorcode COLOR_CODE.RGBA then VRgba (toRgb colorObj)
  else if String.eqb exportColorcode COLOR_CODE.HSV then VHsv (toHsv colorObj)
  else VUndefined.

(** Lines 338-344: the choice of the source.  [isHex] calls [.match] on
    its argument, so a HEX source that is not a string throws; the HSV
    branch reads [colorValue.h] and throws on [undefined] only. *)
Definition sourceColor (lastValidColor : string) (colorCode : string)
    (value : colorValue) : completion tinycolorObject :=
  if String.eqb colorCode COLOR_CODE.HEX then
    match value with
    | VString str =>
        Normal (if isHex str then tinycolor (VString str)
                else tinycolor (VString lastValidColor))
    | _ => TypeError
    end
  else if String.eqb colorCode COLOR_CODE.HSV then
    match value with
    | VHsv c => Normal (tinycolorHsvString (Hsv.h c) (Hsv.s c) (Hsv.v c))
    | VUndefined => TypeError
    | _ => Normal (tinycolor (VString "hsv(undefined, undefined%, undefined%)"))
    end
  else Normal (tinycolor value).

(** [convertColor] (lines 335-355); [lastValidColor] is the closure
    variable. *)
Definition convertColor (lastValidColor : string) (colorCode : string)
    (value : colorValue) (exportColorcode : string) : completion colorValue :=
  let* colorObj := sourceColor lastValidColor colorCode value in
  Normal (exportColor colorObj exportColorcode).

(** [convertColor(..., COLOR_CODE.HSV)], whose result is an hsv object. *)
Definition convertToHsv (lastValidColor : string) (colorCode : string)
    (value : colorValue) : completion Hsv.t :=
  let* res := convertColor lastValidColor colorCode value COLOR_CODE.HSV in
  match res with
  | VHsv c => Normal c
  | _ => TypeError
  end.

(** [isMonochrome] (lines 324-327). *)
Definition isMonochrome (lastValidColor : string) (format : string)
    (value : colorValue) : completion bool :=
  let* hsv := convertToHsv lastValidColor format value in
  Normal (Qeq_bool (Hsv.s hsv) 0).

(** ** Derived values *)

(** [this.getHsv] (lines 426-440); the result is a new object.  The
    products and the quotient are those of the doubles: [57 / 100 * 100]
    is [56.99999999999999]. *)
Definition getHsv (st : Tag.t) : completion Hsv.t :=
  match Opts.hsv (Tag.opts st) with
  | Some hsv => Normal hsv
  | None =>
      let* (format, sl) := currentColor st in
      let* value := readSlot (Tag.heap st) sl in
      let* hsv := convertToHsv (Tag.lastValidColor st) format value in
      Normal (Hsv.make
                (inject_Z (Math_round (Hsv.h hsv)))
                (Double.product
                   (Double.quotient (inject_Z (Math_round (Double.product (Hsv.s hsv) 100))) 100)
                   100)
                (Double.product
                   (Double.quotient (inject_Z (Math_round (Double.product (Hsv.v hsv) 100))) 100)
                   100))
  end.

(** [getColorObject] (lines 391-421). *)
Definition getColorObject (st : Tag.t) (rect : Rect.t) (touchX touchY : Q) : completion Hsv.t :=
  let* hsv := getHsv st in
  Normal (colorObjectAt (Hsv.h hsv) rect touchX touchY).


(** [updateSpectrum] (lines 360-384) draws on the canvas, which is not
    part of the state; what remains is the call of [this.getHsv] and of
    the converter, which can throw. *)
Definition updateSpectrum (st : Tag.t) : completion Tag.t :=
  let* hsv := getHsv st in
  let* _ := convertColor (Tag.lastValidColor st) COLOR_CODE.HSV
              (VHsv (Hsv.make (Hsv.h hsv) 100 100)) COLOR_CODE.HEX in
  Normal st.

(** ** Construction and the update cycle *)

(** [this.opts.selectablecolorcode || {HEX: true, RGBA: true}]. *)
Definition selectableOrDefault (hp : gmap positive object) (o : Opts.t)
    : positive * gmap positive object :=
  match Opts.selectablecolorcode o with
  | Some l => (l, hp)
  | None => alloc hp (MapObject allSelectable)
  end.

(** [this.opts.color || {format: COLOR_CODE.HEX, value: ''}]. *)
Definition colorOrDefault (hp : gmap positive object) (o : Opts.t)
    : positive * gmap positive object :=
  match Opts.color o with
  | Some l => (l, hp)
  | None => alloc hp (ColorObject COLOR_CODE.HEX (SString EmptyString))
  end.

(** The initialisation of lines 241-261.  The widening of lines 253-255
    writes into the object of the host when the host supplied one. *)
Definition init (hp : gmap positive object) (o : Opts.t) : completion Tag.t :=
  let '(sel, hp) := selectableOrDefault hp o in
  let '(col, hp) := colorOrDefault hp o in
  let* (format, _) := readColor hp col in
  let* m := readMap hp sel in
  let hp := if negb (selectable m format)
            then <[sel := MapObject (<[format := true]> m)]> hp
            else hp in
  Normal (Tag.make hp col sel 0 "#000000" false o).

(** The ['update'] handler of lines 270-283, run after the host has
    stored the new [opts]. *)
Definition update (o : Opts.t) (st : Tag.t) : completion Tag.t :=
  let '(sel, hp) := selectableOrDefault (Tag.heap st) o in
  let '(col, hp) := colorOrDefault hp o in
  let* (format, sl) := readColor hp col in
  let* lastValid :=
    if String.eqb format COLOR_CODE.HEX then
      match sl with
      | SString str => Normal (if isHex str then str else Tag.lastValidColor st)
      | _ => TypeError
      end
    else Normal (Tag.lastValidColor st) in
  updateSpectrum
    (Tag.make hp col sel (Tag.latestValidHue st) lastValid (Tag.isCatcherActive st) o).

(** ** The handlers *)

(** A new object [{format, value}] holding what the converter returned. *)
Definition newColor (hp : gmap positive object) (format : string) (val : colorValue)
    : positive * gmap positive object :=
  let '(sl, hp) := storeValue hp val in
  alloc hp (ColorObject format sl).

(** The common body of the three pointer handlers (lines 580-588,
    601-609 and 620-628). *)
Definition pointerColorChange (st : Tag.t) (rect : Rect.t) (pageX pageY : Q)
    : completion (Tag.t * Emitted.t) :=
  let* hsv := getColorObject st rect pageX pageY in
  let* (format, _) := currentColor st in
  let* val := convertColor (Tag.lastValidColor st) COLOR_CODE.HSV (VHsv hsv) format in
  let* mono := isMonochrome (Tag.lastValidColor st) format val in
  let st := if negb mono then Tag.setLatestValidHue (Hsv.h hsv) st else st in
  let '(l, hp) := newColor (Tag.heap st) format val in
  Normal (Tag.setHeap hp st, Emitted.make l (Some hsv)).

Definition handleCanvasMouseDown (st : Tag.t) (rect : Rect.t) (pageX pageY : Q)
    : completion (Tag.t * Emitted.t) :=
  pointerColorChange (Tag.setIsCatcherActive true st) rect pageX pageY.

Definition handleCatcherMouseMove (st : Tag.t) (rect : Rect.t) (pageX pageY : Q)
    : completion (Tag.t * option Emitted.t) :=
  if negb (Tag.isCatcherActive st) then Normal (st, None)
  else let* (st, e) := pointerColorChange st rect pageX pageY in
       Normal (st, Some e).

Definition handleCatcherMouseUp (st : Tag.t) (rect : Rect.t) (pageX pageY : Q)
    : completion (Tag.t * Emitted.t) :=
  pointerColorChange (Tag.setIsCatcherActive false st) rect pageX pageY.

(** [this.handleHueSliderChange] (lines 635-647). *)
Definition handleHueSliderChange (st : Tag.t) (hue : Q) : completion (Tag.t * Emitted.t) :=
  let* (format, sl) := currentColor st in
  let* val := readSlot (Tag.heap st) sl in
  let* hsv := convertToHsv (Tag.lastValidColor st) format val in
  let hsv := Hsv.make hue
               (inject_Z (Math_round (Double.product (Hsv.s hsv) 100)))
               (inject_Z (Math_round (Double.product (Hsv.v hsv) 100))) in
  let* colorValue := convertColor (Tag.lastValidColor st) COLOR_CODE.HSV (VHsv hsv) format in
  let '(l, hp) := newColor (Tag.heap st) format colorValue in
  Normal (Tag.setHeap hp st, Emitted.make l (Some hsv)).

(** [this.handleColorChangeButtonTap] (lines 473-489).  The object
    [color] is created first and filled in after the loop; [None] is a
    loop that did not finish within [fuel] iterations. *)
Definition handleColorChangeButtonTap (fuel : nat) (st : Tag.t)
    : option (completion (Tag.t * Emitted.t)) :=
  let '(l, hp) := alloc (Tag.heap st) (ColorObject COLOR_CODE.HEX (SString EmptyString)) in
  match currentColor st with
  | TypeError => Some TypeError
  | Normal (format, sl) =>
      match indexOf order format with
      | None => Some (Normal (Tag.setHeap hp st, Emitted.make l None))
      | Some index =>
          match readMap (Tag.heap st) (Tag.selectableColorCode st) with
          | TypeError => Some TypeError
          | Normal m =>
              match cycleIndex fuel m index with
              | None => None
              | Some index =>
                  let format' := order !!! index in
                  Some (let* val := readSlot (Tag.heap st) sl in
                        let* val := convertColor (Tag.lastValidColor st) format val format' in
                        let '(sl', hp) := storeValue hp val in
                        let hp := <[l := ColorObject format' sl']> hp in
                        Normal (Tag.setHeap hp st, Emitted.make l None))
              end
          end
      end
  end.

(** An assignment [target.key = x] or [objectAssign(target, {key: x})]
    on the object behind a [value] property.  Only the four channels of
    an rgba object are modelled; [onPrimitive] is the outcome on a
    string. *)
Definition assignChannel (update : Rgba.t -> Rgba.t) (onPrimitive : completion unit)
    (hp : gmap positive object) (target : slot) : completion (gmap positive object) :=
  match target with
  | SRef lv =>
      match hp !! lv with
      | Some (RgbaObject c) => Normal (<[lv := RgbaObject (update c)]> hp)
      | Some (HsvObject _) => Normal hp
      | _ => TypeError
      end
  | SString _ => let* _ := onPrimitive in Normal hp
  | SUndefined => TypeError
  end.

Definition withR (x : Q) (c : Rgba.t) : Rgba.t := Rgba.make x (Rgba.g c) (Rgba.b c) (Rgba.a c).
Definition withG (x : Q) (c : Rgba.t) : Rgba.t := Rgba.make (Rgba.r c) x (Rgba.b c) (Rgba.a c).
Definition withB (x : Q) (c : Rgba.t) : Rgba.t := Rgba.make (Rgba.r c) (Rgba.g c) x (Rgba.a c).
Definition withA (x : Q) (c : Rgba.t) : Rgba.t := Rgba.make (Rgba.r c) (Rgba.g c) (Rgba.b c) x.

(** [this.handleAlphaSliderChange] (lines 653-661).  [color] is
    [this.color] itself, so [color.format = RGBA] is already visible when
    [this.color.format] is read for the conversion.  The module is
    strict code: creating a property on a primitive string throws.  The
    stored alpha is the double [alpha / 100]. *)
Definition handleAlphaSliderChange (st : Tag.t) (alpha : Q) : completion (Tag.t * Emitted.t) :=
  let color := Tag.color st in
  let hp := Tag.heap st in
  let* (format, sl) := readColor hp color in
  let* (sl, hp) :=
    if negb (String.eqb format COLOR_CODE.RGBA) then
      let hp := <[color := ColorObject COLOR_CODE.RGBA sl]> hp in
      let* val := readSlot hp sl in
      let* val := convertColor (Tag.lastValidColor st) COLOR_CODE.RGBA val COLOR_CODE.RGBA in
      let '(sl, hp) := storeValue hp val in
      Normal (sl, <[color := ColorObject COLOR_CODE.RGBA sl]> hp)
    else Normal (sl, hp) in
  let* hp := assignChannel (withA (Double.quotient alpha 100)) TypeError hp sl in
  Normal (Tag.setHeap hp st, Emitted.make color (Opts.hsv (Tag.opts st))).

(** The common body of the four text-input handlers (lines 681-740):
    a new object [{format, value}] whose [value] is [this.color.value]
    itself, then [objectAssign(color.value, {...})].  [objectAssign] on a
    primitive string writes into a temporary wrapper. *)
Definition inputChannel (update : Rgba.t -> Rgba.t) (st : Tag.t)
    : completion (Tag.t * Emitted.t) :=
  let* (format, sl) := currentColor st in
  let '(l, hp) := alloc (Tag.heap st) (ColorObject format sl) in
  let* hp := assignChannel update (Normal tt) hp sl in
  Normal (Tag.setHeap hp st, Emitted.make l None).

(** [value || 0]; [None] is an empty or missing input. *)
Definition orZero (value : option Q) : Q := default 0 value.

Definition handleInputRgbaRedInput (st : Tag.t) (value : option Q) :=
  inputChannel (withR (orZero value)) st.
Definition handleInputRgbaGreenInput (st : Tag.t) (value : option Q) :=
  inputChannel (withG (orZero value)) st.
Definition handleInputRgbaBlueInput (st : Tag.t) (value : option Q) :=
  inputChannel (withB (orZero value)) st.
(** [new BigNumber(colorValue).div(100).toString()]: the quotient, kept
    as the number that the decimal string denotes. *)
Definition handleInputAlphaInput (st : Tag.t) (value : option Q) :=
  inputChannel (withA (orZero value / 100)) st.

(** [this.handleInputHexInput] (lines 666-676); the previous value of
    [normalizeHexValue] is [this.opts.color.value]. *)
Definition handleInputHexInput (st : Tag.t) (raw : string) : completion (Tag.t * Emitted.t) :=
  let previous :=
    match Opts.color (Tag.opts st) with
    | Some l => let* (_, sl) := readColor (Tag.heap st) l in Normal sl
    | None => TypeError
    end in
  let* sl := normalizeHexValue (fun str => Normal (SString str)) previous raw in
  let* (format, _) := currentColor st in
  let '(l, hp) := alloc (Tag.heap st) (ColorObject format sl) in
  Normal (Tag.setHeap hp st, Emitted.make l None).

(** ** Further derived values *)

(** [this.getSpectrumPosition] (lines 446-468); [None] is [undefined],
    the result for a parameter that names neither axis.  The components
    of the hsv are rationals: a component of a host-supplied hsv that is
    NaN, which fails both tests and is returned as it is, is outside the
    model. *)
Definition getSpectrumPosition (st : Tag.t) (param : string) : completion (option Q) :=
  let* hsv := getHsv st in
  if String.eqb param "saturation" then
    let saturation := Hsv.s hsv in
    let saturation := if Qgtb saturation 100 then 100 else saturation in
    let saturation := if Qltb saturation 0 then 0 else saturation in
    Normal (Some saturation)
  else if String.eqb param "brightness" then
    let brightness := 100 - Hsv.v hsv in
    let brightness := if Qgtb brightness 100 then 100 else brightness in
    let brightness := if Qltb brightness 0 then 0 else brightness in
    Normal (Some brightness)
  else Normal None.

(** The conversion of a number to a string in a template literal is
    JavaScript's own; it is a parameter of the two display functions. *)
Variable numberToString : Q -> string.

(** [${this.color.value.r}] and its siblings: the channel of an rgba
    object, [undefined] for any other value. *)
Definition channelText (proj : Rgba.t -> Q) (val : colorValue) : string :=
  match val with
  | VRgba c => numberToString (proj c)
  | _ => "undefined"
  end.

(** [this.getColorStyle] (lines 507-521). *)
Definition getColorStyle (st : Tag.t) : completion string :=
  let* (format, sl) := currentColor st in
  if String.eqb format COLOR_CODE.HEX then
    match sl with
    | SString str =>
        Normal (if isHex str then concatenatePoundKey str else Tag.lastValidColor st)
    | _ => TypeError
    end
  else if String.eqb format COLOR_CODE.RGBA then
    let* val := readSlot (Tag.heap st) sl in
    match val with
    | VUndefined => TypeError
    | _ =>
        Normal ("rgba(" ++ channelText Rgba.r val ++ "," ++ channelText Rgba.g val ++ ","
                ++ channelText Rgba.b val ++ "," ++ channelText Rgba.a val ++ ")")%string
    end
  else Normal EmptyString.

(** [this.getDummyValue] (lines 526-540); [concatenatePoundKey] calls
    [.match] on its argument. *)
Definition getDummyValue (st : Tag.t) : completion string :=
  let* (format, sl) := currentColor st in
  if String.eqb format COLOR_CODE.HEX then
    match sl with
    | SString str => Normal (concatenatePoundKey str)
    | _ => TypeError
    end
  else if String.eqb format COLOR_CODE.RGBA then
    let* val := readSlot (Tag.heap st) sl in
    match val with
    | VUndefined => TypeError
    | _ =>
        Normal (channelText Rgba.r val ++ "," ++ channelText Rgba.g val ++ ","
                ++ channelText Rgba.b val ++ "," ++ channelText Rgba.a val)%string
    end
  else Normal EmptyString.

(** ** The life of a component

    One step is one run of the update handler or of a handler of the
    user interface; between two steps the host, which owns the objects,
    may have rewritten the heap. *)
Inductive step : Tag.t -> Tag.t -> Prop :=
| step_host (hp : gmap positive object) (st : Tag.t) :
    step st (Tag.setHeap hp st)
| step_update (o : Opts.t) (st st' : Tag.t) :
    update o st = Normal st' -> step st st'
| step_mouse_down (rect : Rect.t) (x y : Q) (st st' : Tag.t) (e : Emitted.t) :
    handleCanvasMouseDown st rect x y = Normal (st', e) -> step st st'
| step_mouse_move (rect : Rect.t) (x y : Q) (st st' : Tag.t) (e : option Emitted.t) :
    handleCatcherMouseMove st rect x y = Normal (st', e) -> step st st'
| step_mouse_up (rect : Rect.t) (x y : Q) (st st' : Tag.t) (e : Emitted.t) :
    handleCatcherMouseUp st rect x y = Normal (st', e) -> step st st'
| step_hue (hue : Q) (st st' : Tag.t) (e : Emitted.t) :
    handleHueSliderChange st hue = Normal (st', e) -> step st st'
| step_tap (fuel : nat) (st st' : Tag.t) (e : Emitted.t) :
    handleColorChangeButtonTap fuel st = Some (Normal (st', e)) -> step st st'
| step_alpha (alpha : Q) (st st' : Tag.t) (e : Emitted.t) :
    handleAlphaSliderChange st alpha = Normal (st', e) -> step st st'
| step_red (input : option Q) (st st' : Tag.t) (e : Emitted.t) :
    handleInputRgbaRedInput st input = Normal (st', e) -> step st st'
| step_green (input : option Q) (st st' : Tag.t) (e : Emitted.t) :
    handleInputRgbaGreenInput st input = Normal (st', e) -> step st st'
| step_blue (input : option Q) (st st' : Tag.t) (e : Emitted.t) :
    handleInputRgbaBlueInput st input = Normal (st', e) -> step st st'
| step_alpha_input (input : option Q) (st st' : Tag.t) (e : Emitted.t) :
    handleInputAlphaInput st input = Normal (st', e) -> step st st'
| step_hex (raw : string) (st st' : Tag.t) (e : Emitted.t) :
    handleInputHexInput st raw = Normal (st', e) -> step st st'.

Inductive reachable : Tag.t -> Prop :=
| reachable_init (hp : gmap positive object) (o : Opts.t) (st : Tag.t) :
    init hp o = Normal st -> reachable st
| reachable_step (st st' : Tag.t) :
    reachable st -> step st st' -> reachable st'.


End Component.

(** ** A reference instance of the interface

    The algorithms of tinycolor2 in exact arithmetic, for the inputs the
    component produces: 3- and 6-digit hex strings, rgba objects and
    [hsv(h, s%, v%)] strings.  Any other string is mapped to black, which
    is what tinycolor2 does with an unparseable input; the colour names and
    the other notations it accepts are outside this instance.  It is used
    for closed examples only; every general theorem holds for all
    instances. *)
Module TinyColorRef.

Record t : Type := make { _r : Q; _g : Q; _b : Q; _a : Q }.

Definition Qmod (n m : Q) : Q := n - inject_Z (Qfloor (n / m)) * m.

(** [bound01(n, max)] for a number: clamp to [[0, max]], then scale. *)
Definition bound01 (n m : Q) : Q :=
  let n := Qmin m (Qmax 0 n) in
  if Qltb (Qabs (n - m)) (1 # 1000000) then 1 else Qmod n m / m.

(** [bound01(n + "%", 100)]: as above with the percentage truncated to
    two decimals ([parseInt(n * max, 10) / 100]). *)
Definition bound01Percent (n : Q) : Q :=
  let n := Qmin 100 (Qmax 0 n) in
  let n := inject_Z (Z.quot (Qnum (n * 100)) (Zpos (Qden (n * 100)))) / 100 in
  if Qltb (Qabs (n - 100)) (1 # 1000000) then 1 else Qmod n 100 / 100.

Definition hexDigitValue (c : ascii) : Z :=
  let n := Z.of_nat (nat_of_ascii c) in
  if (48 <=? n)%Z && (n <=? 57)%Z then n - 48
  else if (65 <=? n)%Z && (n <=? 70)%Z then n - 55
  else if (97 <=? n)%Z && (n <=? 102)%Z then n - 87
  else 0.

Definition opaque (r g b : Z) : t := make (inject_Z r) (inject_Z g) (inject_Z b) 1.

Definition black : t := opaque 0 0 0.

Definition parseHex (str : string) : t :=
  if isHex str then
    match list_ascii_of_string (dropPoundKey str) with
    | [r1; r2; g1; g2; b1; b2] =>
        opaque (16 * hexDigitValue r1 + hexDigitValue r2)
               (16 * hexDigitValue g1 + hexDigitValue g2)
               (16 * hexDigitValue b1 + hexDigitValue b2)
    | [r1; g1; b1] =>
        opaque (17 * hexDigitValue r1) (17 * hexDigitValue g1) (17 * hexDigitValue b1)
    | _ => black
    end
  else black.

(** [hsvToRgb(h, s, v)] after the three [bound01] calls. *)
Definition hsvToRgb (h s v : Q) : t :=
  let h := h * 6 in
  let i := Qfloor h in
  let f := h - inject_Z i in
  let p := v * (1 - s) in
  let q := v * (1 - f * s) in
  let u := v * (1 - (1 - f) * s) in
  let '(r, g, b) :=
    match (i mod 6)%Z with
    | 0%Z => (v, u, p)
    | 1%Z => (q, v, p)
    | 2%Z => (p, v, u)
    | 3%Z => (p, q, v)
    | 4%Z => (u, p, v)
    | _ => (v, p, q)
    end in
  make (r * 255) (g * 255) (b * 255) 1.

(** The constructor rounds a channel below 1. *)
Definition settle (c : t) : t :=
  let fix1 x := if Qltb x 1 then inject_Z (Math_round x) else x in
  make (fix1 (_r c)) (fix1 (_g c)) (fix1 (_b c)) (_a c).

Definition boundAlpha (a : Q) : Q := if Qltb a 0 || Qgtb a 1 then 1 else a.

Definition ofHsvString (h s v : Q) : t :=
  settle (hsvToRgb (bound01 h 360) (bound01Percent s) (bound01Percent v)).

(** An object [{h, s, v}]: [convertToPercentage] turns a component of at
    most 1 into a percentage. *)
Definition ofHsvObject (h s v : Q) : t :=
  let component x := if Qle_bool x 1 then bound01Percent (x * 100) else bound01 x 100 in
  settle (hsvToRgb (bound01 h 360) (component s) (component v)).

Definition ofValue (val : colorValue) : t :=
  match val with
  | VString str => parseHex str
  | VRgba c =>
      settle (make (bound01 (Rgba.r c) 255 * 255) (bound01 (Rgba.g c) 255 * 255)
                   (bound01 (Rgba.b c) 255 * 255) (boundAlpha (Rgba.a c)))
  | VHsv c => ofHsvObject (Hsv.h c) (Hsv.s c) (Hsv.v c)
  | VUndefined => black
  end.

Definition hexDigit (n : Z) : ascii :=
  if (n <? 10)%Z then ascii_of_nat (Z.to_nat (n + 48)) else ascii_of_nat (Z.to_nat (n + 87)).

Definition pad2 (n : Z) : string :=
  String (hexDigit (n / 16)) (String (hexDigit (n mod 16)) EmptyString).

Definition toHexString (c : t) : string :=
  String "#"%char
    (pad2 (Math_round (_r c)) ++ pad2 (Math_round (_g c)) ++ pad2 (Math_round (_b c)))%string.

Definition toRgb (c : t) : Rgba.t :=
  Rgba.make (inject_Z (Math_round (_r c))) (inject_Z (Math_round (_g c)))
            (inject_Z (Math_round (_b c))) (_a c).

(** [rgbToHsv], with the hue in degrees. *)
Definition toHsv (c : t) : Hsv.t :=
  let r := bound01 (_r c) 255 in
  let g := bound01 (_g c) 255 in
  let b := bound01 (_b c) 255 in
  let mx := Qmax r (Qmax g b) in
  let mn := Qmin r (Qmin g b) in
  let d := mx - mn in
  let s := if Qeq_bool mx 0 then 0 else d / mx in
  let h :=
    if Qeq_bool mx mn then 0
    else if Qeq_bool mx r then (g - b) / d + (if Qltb g b then 6 else 0)
    else if Qeq_bool mx g then (b - r) / d + 2
    else (r - g) / d + 4 in
  Hsv.make (Qred (h / 6 * 360)) (Qred s) (Qred mx).

Definition instance : TinyColor :=
  Build_TinyColor t ofValue ofHsvString toHexString toRgb toHsv.

End TinyColorRef.


(** ** Auxiliary predicates of the statements *)

(** A byte that no typing-hex string contains: the space, and the lead
    byte of U+3000. *)
Definition isRejectedByte (c : ascii) : bool :=
  ((nat_of_ascii c =? 32) || (nat_of_ascii c =? 227))%nat.

Fixpoint hasRejectedByte (str : string) : bool :=
  match str with
  | EmptyString => false
  | String c rest => isRejectedByte c || hasRejectedByte rest
  end.

(** The source value has the shape of its format: a string for HEX, an
    object for HSV (the data model of the colours; any value is accepted
    for the other formats). *)
Definition sourceHasShape (colorCode : string) (value : colorValue) : Prop :=
  (colorCode = COLOR_CODE.HEX -> exists str, value = VString str)
  /\ (colorCode = COLOR_CODE.HSV -> value <> VUndefined).

(** A text-input handler on an RGBA colour whose value object is at [lv]:
    the outcome is normal, the emitted colour is a new object
    [{format: RGBA, value}] sharing the value object, and the value object
    now holds [c']. *)
Definition writesChannel (st : Tag.t) (lv : positive) (c' : Rgba.t)
    (outcome : completion (Tag.t * Emitted.t)) : Prop :=
  exists l : positive,
    Tag.heap st !! l = None
    /\ outcome
       = Normal (Tag.setHeap (<[lv := RgbaObject c']>
                                (<[l := ColorObject COLOR_CODE.RGBA (SRef lv)]> (Tag.heap st))) st,
                 Emitted.make l None).

(** ** The wording of the specification, where it differs from the code

    These definitions follow the specification, not the source; they are
    only compared with the definitions above. *)

(** "strip full-width spaces": every U+3000 is removed. *)
Fixpoint stripFullWidthSpace (value : string) : string :=
  match value with
  | String c1 (String c2 (String c3 rest as t2) as t1) =>
      if ((nat_of_ascii c1 =? 227) && (nat_of_ascii c2 =? 128) && (nat_of_ascii c3 =? 128))%nat
      then stripFullWidthSpace rest
      else String c1 (stripFullWidthSpace t1)
  | String c1 t1 => String c1 (stripFullWidthSpace t1)
  | EmptyString => EmptyString
  end.

(** [normalizeTypedHex(rawInput, previousValue)] of section 4.4. *)
Definition normalizeTypedHex (rawInput previousValue : string) : string :=
  let rawInput := stripFullWidthSpace rawInput in
  let value := if isHex rawInput then concatenatePoundKey rawInput else rawInput in
  if isTypingHex value then value else previousValue.

(** "the nearest 1/100 of a percent", of a fraction of 1, on the 0-100
    scale: two decimals of the percentage. *)
Definition roundToHundredthOfPercent (fraction : Q) : Q :=
  inject_Z (Math_round (fraction * 100 * 100)) / 100.

(** [n / 100 * 100] in doubles, for a whole [n]: what [getHsv] makes of
    [Math.round(x * 100)]. *)
Definition throughHundredths (n : Z) : Q :=
  Double.product (Double.quotient (inject_Z n) 100) 100.

(** The whole percentages between 0 and 100 that [n / 100 * 100] does
    not give back. *)
Definition inexactPercentages : list Z := [7; 14; 28; 29; 55; 56; 57; 58]%Z.

(** "clamp [y] to [[0.1, rect.height]]". *)
Definition clampYSpec (rect : Rect.t) (y : Q) : Q :=
  Qmax (1 # 10) (Qmin (Rect.height rect) y).

(** ** Concrete states for the closed examples *)

Definition hexOnly : gmap string bool :=
  <[COLOR_CODE.HEX := true]> (<[COLOR_CODE.RGBA := false]> ∅).

Definition exampleRgba : Rgba.t := Rgba.make 10 20 30 1.

(** Location 1: the colour [{format: 'HEX', value: '#ff0000'}]; location
    2: the map [{HEX: true, RGBA: false}]; location 3: an rgba object;
    location 4: the colour [{format: 'RGBA', value}] with that object;
    location 5: the colour [{format: 'HEX', value: '#fffefd'}]. *)
Definition exampleHeap : gmap positive object :=
  <[1%positive := ColorObject COLOR_CODE.HEX (SString "#ff0000")]>
    (<[2%positive := MapObject hexOnly]>
       (<[3%positive := RgbaObject exampleRgba]>
          (<[4%positive := ColorObject COLOR_CODE.RGBA (SRef 3)]>
             (<[5%positive := ColorObject COLOR_CODE.HEX (SString "#fffefd")]> ∅)))).

Definition optsOf (color : positive) : Opts.t :=
  Opts.make (Some color) (Some 2%positive) None true.

Definition stateOf (color : positive) : Tag.t :=
  Tag.make exampleHeap color 2 0 "#000000" false (optsOf color).

(** The component showing the red HEX colour, the RGBA colour and the
    pale HEX colour. *)
Definition stRed : Tag.t := stateOf 1.
Definition stRgba : Tag.t := stateOf 4.
Definition stPale : Tag.t := stateOf 5.

(** The component showing the dark red [#910000], whose brightness is
    145/255. *)
Definition darkRedHeap : gmap positive object :=
  <[7%positive := ColorObject COLOR_CODE.HEX (SString "#910000")]> exampleHeap.
Definition stDarkRed : Tag.t :=
  Tag.make darkRedHeap 7 2 0 "#000000" false (optsOf 7).

Definition exampleRect : Rect.t := Rect.make 0 0 200 100.
Definition fractionalRect : Rect.t := Rect.make 0 0 (52 # 5) 100.

(** ** The touch binder (first script of mixin.js) *)

Module Touch.

Definition TOUCH_ALLOW_RANGE : Double.t := Double.ofZ 10.

(** *** The gesture of one bound element

    What the three listeners of an element share: the class [hover] of
    the element and the closure variables [touchX] and [touchY].  The
    coordinates of an event are doubles. *)
Record gesture : Type := makeGesture { hover : bool; touchX : Double.t; touchY : Double.t }.

(** [let touchX = 0, touchY = 0] on an element without the class. *)
Definition idle : gesture := makeGesture false (Double.ofZ 0) (Double.ofZ 0).

(** [hypotenuse >= TOUCH_ALLOW_RANGE] for
    [hypotenuse = Math.sqrt(Math.pow(distanceX, 2) + Math.pow(distanceY, 2))],
    in doubles.  The sum and the square root are those of IEEE 754;
    [Math.pow] is approximated by the implementation, and [Math_pow2] is
    its [d => Math.pow(d, 2)]. *)
Definition outOfRange (Math_pow2 : Double.t -> Double.t) (distanceX distanceY : Double.t)
    : bool :=
  let hypotenuse := Double.sqrt (Double.add (Math_pow2 distanceX) (Math_pow2 distanceY)) in
  Double.leb TOUCH_ALLOW_RANGE hypotenuse.

(** The listener of lines 67-77; [pageX] and [pageY] are those of the
    first touch or of the mouse event. *)
Definition touchStart (g : gesture) (pageX pageY : Double.t) : gesture :=
  makeGesture true pageX pageY.

(** The listener of lines 79-97. *)
Definition touchMove (Math_pow2 : Double.t -> Double.t) (g : gesture)
    (pageX pageY : Double.t) : gesture :=
  let isPressed := hover g in
  if negb isPressed then g
  else
    let distanceX := Double.sub pageX (touchX g) in
    let distanceY := Double.sub pageY (touchY g) in
    if outOfRange Math_pow2 distanceX distanceY
    then makeGesture false (touchX g) (touchY g)
    else g.

(** Lines 106-108: a leading [parent.] is removed. *)
Definition stripParent (handlerName : string) : string :=
  if String.prefix "parent." handlerName
  then String.substring 7 (String.length handlerName - 7) handlerName
  else handlerName.

(** The listener of lines 99-114.  [ontap] is [elm.getAttribute('ontap')],
    [None] for a missing attribute, on which [.indexOf] throws before the
    class is removed; [hasHandler name] is the truth value of [tag[name]].
    The result holds the handler that was called, if any. *)
Definition touchEnd (g : gesture) (ontap : option string) (hasHandler : string -> bool)
    : completion (gesture * option string) :=
  let isPressed := hover g in
  if isPressed then
    match ontap with
    | None => TypeError
    | Some handlerName =>
        let handlerName := stripParent handlerName in
        let called :=
          if negb (String.eqb handlerName EmptyString) && hasHandler handlerName
          then Some handlerName else None in
        Normal (makeGesture false (touchX g) (touchY g), called)
    end
  else Normal (makeGesture false (touchX g) (touchY g), None).

(** A press at [(pageX, pageY)] followed by the moves of [path]. *)
Definition press (Math_pow2 : Double.t -> Double.t) (pageX pageY : Double.t)
    (path : list (Double.t * Double.t)) : gesture :=
  fold_left (fun g p => touchMove Math_pow2 g (fst p) (snd p)) path
            (touchStart idle pageX pageY).

(** *** The registry of listeners, [closureEventListener] (lines 31-58) *)

Section Registry.
Context {Target Listener : Type}.

Record entry : Type := makeEntry {
  target : Target;
  type : string;
  listener : Listener;
  capture : option bool
}.

(** The calls made on the DOM. *)
Inductive domCall : Type :=
| AddEventListener (e : entry)
| RemoveEventListener (e : entry).

(** [events] and [key]. *)
Record registry : Type := makeRegistry { events : gmap string entry; key : nat }.

Definition empty : registry := makeRegistry ∅ 0.

(** [`t_${key}`], for a counter in the range of exact integers. *)
Definition eventIdOf (n : nat) : string := "t_" +:+ pretty n.

Definition add (reg : registry) (e : entry) : string * registry * domCall :=
  let eventId := eventIdOf (key reg) in
  (eventId, makeRegistry (<[eventId := e]> (events reg)) (S (key reg)), AddEventListener e).

(** [events] is a plain object, so [events[key]] also finds what every
    object inherits from [Object.prototype]; all of these are truthy and
    none has a [target], on which [.removeEventListener] then throws. *)
Definition inheritedNames : list string :=
  ["constructor"; "hasOwnProperty"; "isPrototypeOf"; "propertyIsEnumerable";
   "toLocaleString"; "toString"; "valueOf"; "__proto__"; "__defineGetter__";
   "__defineSetter__"; "__lookupGetter__"; "__lookupSetter__"]%string.

Definition isInherited (name : string) : bool := existsb (String.eqb name) inheritedNames.

Definition remove (reg : registry) (eventId : string) : completion (registry * option domCall) :=
  match events reg !! eventId with
  | Some e =>
      Normal (makeRegistry (delete eventId (events reg)) (key reg), Some (RemoveEventListener e))
  | None => if isInherited eventId then TypeError else Normal (reg, None)
  end.

(** [list]. *)
Definition listEvents (reg : registry) : gmap string entry := events reg.

(** Every id in use was issued by [add]: it is [t_n] for an [n] below
    the counter. *)
Definition issued (reg : registry) : Prop :=
  forall eventId : string,
    is_Some (events reg !! eventId) -> exists n : nat, (n < key reg)%nat /\ eventId = eventIdOf n.

End Registry.
Arguments entry : clear implicits.
Arguments domCall : clear implicits.
Arguments registry : clear implicits.

(** *** Binding and unbinding the elements of a tag *)

(** [refs.touch]: an array of elements, one element, or nothing. *)
Inductive refsTouch : Type :=
| TouchArray (elms : list nat)
| TouchOne (elm : nat)
| TouchNone.

(** [getTouchableElements] (lines 10-19). *)
Definition getTouchableElements (refs : refsTouch) : list nat :=
  match refs with
  | TouchArray elms => elms
  | TouchOne elm => [elm]
  | TouchNone => []
  end.

(** The three closures that [bindTouchEvents] creates for an element. *)
Inductive touchListener : Type :=
| OnTouchStart (elm : nat)
| OnTouchMove (elm : nat)
| OnTouchEnd (elm : nat).

(** The page: the attribute [touchevents] of each element, the registry
    and the calls made on the DOM so far, latest first. *)
Record page : Type := makePage {
  touchevents : gmap nat string;
  listeners : registry nat touchListener;
  calls : list (domCall nat touchListener)
}.

Definition EVENT_TOUCHSTART (isSupportTouch : bool) : string :=
  if isSupportTouch then "touchstart" else "mousedown".
Definition EVENT_TOUCHMOVE (isSupportTouch : bool) : string :=
  if isSupportTouch then "touchmove" else "mousemove".
Definition EVENT_TOUCHEND (isSupportTouch : bool) : string :=
  if isSupportTouch then "touchend" else "mouseup".

(** [!!elm.getAttribute('touchevents')]. *)
Definition isBound (pg : page) (elm : nat) : bool :=
  match touchevents pg !! elm with
  | Some attr => negb (String.eqb attr EmptyString)
  | None => false
  end.

(** The body of the loop of [bindTouchEvents] (lines 60-117). *)
Definition bindElement (isSupportTouch : bool) (pg : page) (elm : nat) : page :=
  if isBound pg elm then pg
  else
    let '(touchStartEventId, reg, c1) :=
      add (listeners pg)
          (makeEntry elm (EVENT_TOUCHSTART isSupportTouch) (OnTouchStart elm) None) in
    let '(touchMoveEventId, reg, c2) :=
      add reg (makeEntry elm (EVENT_TOUCHMOVE isSupportTouch) (OnTouchMove elm) None) in
    let '(touchEndEventId, reg, c3) :=
      add reg (makeEntry elm (EVENT_TOUCHEND isSupportTouch) (OnTouchEnd elm) None) in
    makePage
      (<[elm := (touchStartEventId +:+ "/" +:+ touchMoveEventId +:+ "/" +:+ touchEndEventId)]>
         (touchevents pg))
      reg
      (c3 :: c2 :: c1 :: calls pg).

Definition bindTouchEvents (isSupportTouch : bool) (pg : page) (refs : refsTouch) : page :=
  fold_left (bindElement isSupportTouch) (getTouchableElements refs) pg.

(** [str.split(sep)] for a separator of one character. *)
Fixpoint split (sep : ascii) (str : string) : list string :=
  match str with
  | EmptyString => [EmptyString]
  | String c rest =>
      if Ascii.eqb c sep then EmptyString :: split sep rest
      else match split sep rest with
           | first :: others => String c first :: others
           | [] => [String c EmptyString]
           end
  end.

(** [forEach] of mout on a callback that returns nothing: the elements
    in order, until one throws. *)
Fixpoint forEach {A S : Type} (arr : list A) (callback : S -> A -> completion S) (s : S)
    : completion S :=
  match arr with
  | [] => Normal s
  | x :: rest => let* s' := callback s x in forEach rest callback s'
  end.

(** One [closureEventListener.remove] of the inner loop (lines 126-128). *)
Definition removeListener (pg : page) (touchEventId : string) : completion page :=
  let* (reg, call) := remove (listeners pg) touchEventId in
  Normal (makePage (touchevents pg) reg
                   (match call with Some c => c :: calls pg | None => calls pg end)).

(** The body of the loop of [unbindTouchEvents] (lines 120-129); the
    attribute is left on the element. *)
Definition unbindElement (pg : page) (elm : nat) : completion page :=
  if negb (isBound pg elm) then Normal pg
  else
    match touchevents pg !! elm with
    | Some attr => forEach (split "/" attr) removeListener pg
    | None => Normal pg
    end.

Definition unbindTouchEvents (pg : page) (refs : refsTouch) : completion page :=
  forEach (getTouchableElements refs) unbindElement pg.

End Touch.

(** ** Further predicates of the statements *)

(** The string contains the separator of the attribute [touchevents]. *)
Fixpoint hasSlash (str : string) : bool :=
  match str with
  | EmptyString => false
  | String c rest => Ascii.eqb c "/" || hasSlash rest
  end.

(** The entries that [bindTouchEvents] registers for an element. *)
Definition startEntry (isSupportTouch : bool) (elm : nat) : Touch.entry nat Touch.touchListener :=
  Touch.makeEntry elm (Touch.EVENT_TOUCHSTART isSupportTouch) (Touch.OnTouchStart elm) None.
Definition moveEntry (isSupportTouch : bool) (elm : nat) : Touch.entry nat Touch.touchListener :=
  Touch.makeEntry elm (Touch.EVENT_TOUCHMOVE isSupportTouch) (Touch.OnTouchMove elm) None.
Definition endEntry (isSupportTouch : bool) (elm : nat) : Touch.entry nat Touch.touchListener :=
  Touch.makeEntry elm (Touch.EVENT_TOUCHEND isSupportTouch) (Touch.OnTouchEnd elm) None.


(** A pointer position that the listener of the moves takes as within
    the range of the press at [(pageX, pageY)]. *)
Definition withinRange (Math_pow2 : Double.t -> Double.t) (pageX pageY : Double.t)
    (p : Double.t * Double.t) : Prop :=
  Touch.outOfRange Math_pow2 (Double.sub (fst p) pageX) (Double.sub (snd p) pageY) = false.

(** The square as the product of doubles. *)
Definition productSquare (d : Double.t) : Double.t := Double.mul d d.

(** The whole distances from -10 to 10. *)
Definition wholeDistances : list Z := map (fun n => Z.of_nat n - 10)%Z (seq 0 21).

(** The value of a colour has the type of its format: a string for HEX,
    an rgba object of the heap for RGBA. *)
Definition wellTyped (hp : gmap positive object) (format : string) (sl : slot) : Prop :=
  (format = COLOR_CODE.HEX /\ exists str, sl = SString str)
  \/ (format = COLOR_CODE.RGBA
      /\ exists (lv : positive) (c : Rgba.t), sl = SRef lv /\ hp !! lv = Some (RgbaObject c)).

(** The heap [hp'] extends [hp]: every object of [hp] is in [hp'],
    unchanged. *)
Definition extends (hp hp' : gmap positive object) : Prop :=
  forall (l : positive) (o : object), hp !! l = Some o -> hp' !! l = Some o.

(** What a handler that builds a new colour leaves behind: the emitted
    colour is a new object of the given format whose value has the type
    of the format, every object that existed is unchanged, and no
    variable of the component other than [latestValidHue] and
    [isCatcherActive] is written. *)
Definition freshEmission (st st' : Tag.t) (e : Emitted.t) (format : string) : Prop :=
  Tag.heap st !! Emitted.color e = None
  /\ extends (Tag.heap st) (Tag.heap st')
  /\ (exists sl', Tag.heap st' !! Emitted.color e = Some (ColorObject format sl')
                  /\ wellTyped (Tag.heap st') format sl')
  /\ Tag.color st' = Tag.color st
  /\ Tag.selectableColorCode st' = Tag.selectableColorCode st
  /\ Tag.lastValidColor st' = Tag.lastValidColor st
  /\ Tag.opts st' = Tag.opts st.


(** ** Further concrete states for the closed examples *)

(** The string of a whole number, for the examples with whole channels. *)
Definition integerToString (q : Q) : string := pretty (Qfloor q).

(** The example heap with one more colour, the partially typed
    [{format: 'HEX', value: 'ff00'}] at location 6. *)
Definition typingHeap : gmap positive object :=
  <[6%positive := ColorObject COLOR_CODE.HEX (SString "ff00")]> exampleHeap.

Definition stBeforeTyping : Tag.t :=
  Tag.make typingHeap 1 2 0 "#000000" false (optsOf 1).


(** A map in which both formats are selectable, and one in which none
    is, at location 2 of the example heap. *)
Definition stBothSelectable : Tag.t :=
  Tag.setHeap (<[2%positive := MapObject allSelectable]> exampleHeap) stRed.
Definition stNoneSelectable : Tag.t :=
  Tag.setHeap (<[2%positive := MapObject ∅]> exampleHeap) stRed.

(** A page with one unmarked element and a registry that has issued two
    ids, one of them still in use. *)
Definition examplePage : Touch.page :=
  Touch.makePage ∅
    (Touch.makeRegistry (<[Touch.eventIdOf 1 := startEntry true 7]> ∅) 2)
    [].

(** * Properties *)

(** ** The hex input validator *)

Section HexFacts.

Lemma isHexDigit_not_rejected c : isHexDigit c = true -> isRejectedByte c = false.
Proof.
  unfold isHexDigit, isRejectedByte. intros Hc.
  destruct (Nat.eqb_spec (nat_of_ascii c) 32%nat) as [E|_]; [rewrite E in Hc; discriminate|].
  destruct (Nat.eqb_spec (nat_of_ascii c) 227%nat) as [E|_]; [rewrite E in Hc; discriminate|].
  reflexivity.
Qed.

Lemma allHexDigits_no_rejected str : allHexDigits str = true -> hasRejectedByte str = false.
Proof.
  induction str as [|c rest IH]; simpl; [reflexivity|].
  intros [Hc Hrest]%andb_prop.
  rewrite (isHexDigit_not_rejected _ Hc). simpl. auto.
Qed.

Lemma isTypingHex_no_rejected str : isTypingHex str = true -> hasRejectedByte str = false.
Proof.
  unfold isTypingHex. intros [Hd _]%andb_prop.
  destruct str as [|c rest]; [reflexivity|].
  destruct (ascii_dec c "#"%char) as [->|Hne].
  - simpl in Hd. simpl. now apply allHexDigits_no_rejected.
  - assert (dropPoundKey (String c rest) = String c rest) as E.
    { simpl. destruct c as [[] [] [] [] [] [] [] []]; try reflexivity. now elim Hne. }
    rewrite E in Hd. now apply allHexDigits_no_rejected.
Qed.

(** One step of the replacement on a string whose first byte is not the
    lead byte of U+3000. *)
Lemma replaceFullWidthSpace_cons c rest :
  nat_of_ascii c <> 227%nat ->
  replaceFullWidthSpace (String c rest) = String c (replaceFullWidthSpace rest).
Proof.
  intros Hc. apply Nat.eqb_neq in Hc.
  destruct rest as [|c2 [|c3 rest]]; simpl; try reflexivity.
  now rewrite Hc.
Qed.

Lemma replaceFullWidthSpace_clean str :
  hasRejectedByte str = false -> replaceFullWidthSpace str = str.
Proof.
  induction str as [|c rest IH]; [reflexivity|].
  simpl hasRejectedByte. intros [Hc Hrest]%orb_false_elim.
  rewrite replaceFullWidthSpace_cons.
  - now rewrite IH.
  - unfold isRejectedByte in Hc. apply orb_false_elim in Hc as [_ Hc].
    now apply Nat.eqb_neq.
Qed.

(** The replacement either leaves a rejected byte behind or changed
    nothing. *)
Lemma replaceFullWidthSpace_rejected str :
  hasRejectedByte (replaceFullWidthSpace str) = false -> replaceFullWidthSpace str = str.
Proof.
  induction str as [|c rest IH]; [reflexivity|].
  destruct (Nat.eq_dec (nat_of_ascii c) 227%nat) as [E|Hne].
  - intros Hclean. exfalso.
    destruct rest as [|c2 [|c3 rest]]; simpl in Hclean.
    + unfold isRejectedByte in Hclean. rewrite E in Hclean. discriminate.
    + unfold isRejectedByte in Hclean. rewrite E in Hclean. discriminate.
    + destruct ((nat_of_ascii c =? 227) && (nat_of_ascii c2 =? 128)
                && (nat_of_ascii c3 =? 128))%nat; simpl in Hclean.
      * discriminate.
      * unfold isRejectedByte in Hclean. rewrite E in Hclean. discriminate.
  - rewrite replaceFullWidthSpace_cons by assumption.
    simpl. intros [_ Hrest]%orb_false_elim. now rewrite IH.
Qed.

Lemma isTypingHex_replace str :
  isTypingHex (replaceFullWidthSpace str) = isTypingHex str.
Proof.
  destruct (isTypingHex (replaceFullWidthSpace str)) eqn:Hrep.
  - pose proof (isTypingHex_no_rejected _ Hrep) as Hclean.
    apply replaceFullWidthSpace_rejected in Hclean. now rewrite Hclean in Hrep.
  - destruct (isTypingHex str) eqn:Hraw; [|reflexivity].
    pose proof (replaceFullWidthSpace_clean _ (isTypingHex_no_rejected _ Hraw)) as E.
    rewrite E in Hrep. congruence.
Qed.

Lemma isHex_isTypingHex str : isHex str = true -> isTypingHex str = true.
Proof.
  unfold isHex, isTypingHex. intros [Hd Hlen]%andb_prop. rewrite Hd. simpl.
  apply orb_prop in Hlen as [E|E]; apply Nat.eqb_eq in E; rewrite E; reflexivity.
Qed.

Lemma isTypingHex_concatenatePoundKey str :
  isTypingHex str = true -> isTypingHex (concatenatePoundKey str) = true.
Proof.
  intros Ht. destruct str as [|c rest]; [reflexivity|].
  destruct (ascii_dec c "#"%char) as [->|Hne]; [exact Ht|].
  assert (concatenatePoundKey (String c rest) = String "#"%char (String c rest)) as ->.
  { simpl. destruct c as [[] [] [] [] [] [] [] []]; try reflexivity. now elim Hne. }
  assert (dropPoundKey (String c rest) = String c rest) as E.
  { simpl. destruct c as [[] [] [] [] [] [] [] []]; try reflexivity. now elim Hne. }
  unfold isTypingHex in *. rewrite E in Ht. exact Ht.
Qed.

Lemma hasRejectedByte_app s1 s2 :
  hasRejectedByte (s1 ++ s2)%string = hasRejectedByte s1 || hasRejectedByte s2.
Proof.
  induction s1 as [|c rest IH]; simpl; [reflexivity|].
  now rewrite IH, orb_assoc.
Qed.

(** What [normalizeHexValue] returns, by the two patterns on the raw
    input. *)
Lemma normalizeHexValue_cases {A : Type} (ofString : string -> A) (previous : A) (raw : string) :
  normalizeHexValue ofString previous raw =
    if isHex raw then ofString (concatenatePoundKey raw)
    else if isTypingHex raw then ofString raw
    else previous.
Proof.
  unfold normalizeHexValue.
  destruct (isTypingHex raw) eqn:Ht.
  - rewrite (replaceFullWidthSpace_clean raw (isTypingHex_no_rejected raw Ht)).
    destruct (isHex raw); [|now rewrite Ht].
    now rewrite (isTypingHex_concatenatePoundKey raw Ht).
  - assert (isHex raw = false) as ->.
    { destruct (isHex raw) eqn:Hh; [|reflexivity].
      apply isHex_isTypingHex in Hh. congruence. }
    pose proof (isTypingHex_replace raw) as Hrep. rewrite Ht in Hrep.
    assert (isHex (replaceFullWidthSpace raw) = false) as ->.
    { destruct (isHex (replaceFullWidthSpace raw)) eqn:Hh; [|reflexivity].
      apply isHex_isTypingHex in Hh. congruence. }
    now rewrite Hrep.
Qed.

End HexFacts.

(** C8 (as amended): full-width spaces are replaced by ASCII spaces, not
    removed, so an input that contains one is rejected like any other
    input outside the typing pattern; the empty input is returned as the
    empty string; an input matching the committed 3- or 6-digit pattern is
    returned with [#] in front if it had none; an input that fails the
    typing pattern yields the previous value; any other input (typing but
    not committed) is returned verbatim. *)
Theorem C8_normalizeHexValue {A : Type} (ofString : string -> A) (previous : A) (raw : string) :
  normalizeHexValue ofString previous EmptyString = ofString EmptyString
  /\ (isHex raw = true ->
      normalizeHexValue ofString previous raw = ofString (concatenatePoundKey raw))
  /\ (isTypingHex raw = false -> normalizeHexValue ofString previous raw = previous)
  /\ (isTypingHex raw = true -> isHex raw = false ->
      normalizeHexValue ofString previous raw = ofString raw)
  /\ (forall before after : string,
      normalizeHexValue ofString previous (before ++ fullWidthSpace ++ after)%string = previous).
Proof.
  repeat split.
  - intros Hh. rewrite normalizeHexValue_cases. now rewrite Hh.
  - intros Ht. rewrite normalizeHexValue_cases. rewrite Ht.
    destruct (isHex raw) eqn:Hh; [|reflexivity].
    apply isHex_isTypingHex in Hh. congruence.
  - intros Ht Hh. rewrite normalizeHexValue_cases. now rewrite Hh, Ht.
  - intros before after. rewrite normalizeHexValue_cases.
    assert (isTypingHex (before ++ fullWidthSpace ++ after)%string = false) as Ht.
    { destruct (isTypingHex (before ++ fullWidthSpace ++ after)%string) eqn:Ht; [|reflexivity].
      apply isTypingHex_no_rejected in Ht.
      rewrite hasRejectedByte_app in Ht. apply orb_false_elim in Ht as [_ Ht].
      simpl in Ht. discriminate. }
    rewrite Ht.
    destruct (isHex _) eqn:Hh; [|reflexivity].
    apply isHex_isTypingHex in Hh. congruence.
Qed.

(** C8, the claim as stated: with the full-width space stripped, the
    input U+3000 followed by [fff] would be the committed hex [fff] and be
    returned as [#fff]; the code returns the previous value. *)
Lemma C8_counterexample :
  normalizeTypedHex (fullWidthSpace ++ "fff")%string "#000000"%string = "#fff"%string
  /\ normalizeHexValue id "#000000"%string (fullWidthSpace ++ "fff")%string = "#000000"%string
  /\ normalizeHexValue id "#000000"%string (fullWidthSpace ++ "fff")%string
     <> normalizeTypedHex (fullWidthSpace ++ "fff")%string "#000000"%string.
Proof. repeat split. vm_compute. discriminate. Qed.

(** ** The coordinate mapper *)

Section MapperFacts.

Lemma Math_round_mono (p q : Q) : p <= q -> (Math_round p <= Math_round q)%Z.
Proof. intros Hpq. unfold Math_round. apply Qfloor_resp_le. lra. Qed.

Lemma Math_round_comp (p q : Q) : p == q -> Math_round p = Math_round q.
Proof. intros Hpq. unfold Math_round. apply Qfloor_comp. now rewrite Hpq. Qed.

Lemma Math_round_inject_Z (n : Z) : Math_round (inject_Z n) = n.
Proof.
  unfold Math_round.
  assert (n <= Qfloor (inject_Z n + (1 # 2)))%Z as Hlo.
  { rewrite <- (Qfloor_Z n) at 1. apply Qfloor_resp_le. lra. }
  assert (Qfloor (inject_Z n + (1 # 2)) < n + 1)%Z as Hhi.
  { pose proof (Qfloor_le (inject_Z n + (1 # 2))) as Hf.
    assert (inject_Z (Qfloor (inject_Z n + (1 # 2))) < inject_Z (n + 1)) as Hlt.
    { rewrite inject_Z_plus. change (inject_Z 1) with 1. lra. }
    now rewrite <- Zlt_Qlt in Hlt. }
  lia.
Qed.

Lemma Math_round_range (q : Q) : 0 <= q <= 100 -> (0 <= Math_round q <= 100)%Z.
Proof.
  intros [Hlo Hhi]. split.
  - change 0%Z with (Math_round 0). now apply Math_round_mono.
  - change 100%Z with (Math_round 100). now apply Math_round_mono.
Qed.

Lemma percentage_range (x w : Q) : 0 < w -> 0 <= x <= w -> 0 <= x / w * 100 <= 100.
Proof.
  intros Hw [Hlo Hhi].
  assert (0 <= x / w) as H0 by (apply Qle_shift_div_l; lra).
  assert (x / w <= 1) as H1 by (apply Qle_shift_div_r; lra).
  set (t := x / w) in *. lra.
Qed.

Lemma clampX_range (rect : Rect.t) (x : Q) :
  0 <= Rect.width rect -> 0 <= clampX rect x <= Rect.width rect.
Proof.
  intros Hw. unfold clampX, Qgtb, Qltb.
  destruct (Qlt_le_dec (Rect.width rect) x);
    match goal with |- context [Qlt_le_dec ?a 0] => destruct (Qlt_le_dec a 0) end; lra.
Qed.

(** The shape of the vertical clamp: [.1] below zero, the height above
    it, the offset itself in between. *)
Lemma clampY_cases (rect : Rect.t) (y : Q) :
  0 <= Rect.height rect ->
  (y < 0 -> clampY rect y = 1 # 10)
  /\ (0 <= y -> y <= Rect.height rect -> clampY rect y = y)
  /\ (Rect.height rect < y -> clampY rect y = Rect.height rect).
Proof.
  intros Hh. unfold clampY, Qgtb, Qltb. repeat split; intros;
    destruct (Qlt_le_dec (Rect.height rect) y);
    match goal with |- context [Qlt_le_dec ?a 0] => destruct (Qlt_le_dec a 0) end;
    try reflexivity; lra.
Qed.

Lemma clampY_nonneg (rect : Rect.t) (y : Q) : 0 <= clampY rect y.
Proof.
  unfold clampY, Qgtb, Qltb.
  destruct (Qlt_le_dec (Rect.height rect) y);
    match goal with |- context [Qlt_le_dec ?a 0] => destruct (Qlt_le_dec a 0) end; lra.
Qed.

Lemma clampY_range (rect : Rect.t) (y : Q) :
  0 <= Rect.height rect -> 0 <= y -> 0 <= clampY rect y <= Rect.height rect.
Proof.
  intros Hh Hy. unfold clampY, Qgtb, Qltb.
  destruct (Qlt_le_dec (Rect.height rect) y);
    match goal with |- context [Qlt_le_dec ?a 0] => destruct (Qlt_le_dec a 0) end; lra.
Qed.

Lemma saturationOf_comp (rect : Rect.t) (x x' : Q) :
  x == x' -> saturationOf rect x = saturationOf rect x'.
Proof.
  intros E. unfold saturationOf. f_equal. apply Math_round_comp. now rewrite E.
Qed.

Lemma saturationOf_range (rect : Rect.t) (x : Q) :
  0 < Rect.width rect -> 0 <= x <= Rect.width rect -> 0 <= saturationOf rect x <= 100.
Proof.
  intros Hw Hx. unfold saturationOf.
  pose proof (Math_round_range _ (percentage_range x _ Hw Hx)) as [Hlo Hhi].
  split.
  - change 0 with (inject_Z 0). now rewrite <- Zle_Qle.
  - change 100 with (inject_Z 100). now rewrite <- Zle_Qle.
Qed.

Lemma brightnessOf_range (rect : Rect.t) (y : Q) :
  0 < Rect.height rect -> 0 <= y <= Rect.height rect -> 0 <= brightnessOf rect y <= 100.
Proof.
  intros Hh Hy. unfold brightnessOf.
  pose proof (Math_round_range _ (percentage_range y _ Hh Hy)) as [Hlo Hhi].
  assert (inject_Z 0 <= inject_Z (Math_round (y / Rect.height rect * 100))) as H0
    by now rewrite <- Zle_Qle.
  assert (inject_Z (Math_round (y / Rect.height rect * 100)) <= inject_Z 100) as H1
    by now rewrite <- Zle_Qle.
  change (inject_Z 0) with 0 in H0. change (inject_Z 100) with 100 in H1.
  set (t := inject_Z _) in *. lra.
Qed.

Lemma offset_nonneg (d : Q) : 0 <= d -> 0 <= inject_Z (Math_round d).
Proof.
  intros Hd. change 0 with (inject_Z 0) at 1. rewrite <- Zle_Qle.
  change 0%Z with (Math_round 0). now apply Math_round_mono.
Qed.

Lemma offset_nonpos (d : Q) : d < 0 -> inject_Z (Math_round d) <= 0.
Proof.
  intros Hd. change 0 with (inject_Z 0). rewrite <- Zle_Qle.
  change 0%Z with (Math_round 0). apply Math_round_mono. lra.
Qed.

(** Left of the rectangle the horizontal clamp is zero. *)
Lemma clampX_left (rect : Rect.t) (touchX : Q) :
  0 <= Rect.width rect -> touchX - Rect.left rect <= 0 ->
  clampX rect (offsetX rect touchX) == 0.
Proof.
  intros Hw Hd. unfold offsetX.
  assert (inject_Z (Math_round (touchX - Rect.left rect)) <= 0) as Hoff.
  { change 0 with (inject_Z 0). rewrite <- Zle_Qle.
    change 0%Z with (Math_round 0). now apply Math_round_mono. }
  unfold clampX, Qgtb, Qltb.
  destruct (Qlt_le_dec (Rect.width rect) _);
    match goal with |- context [Qlt_le_dec ?a 0] => destruct (Qlt_le_dec a 0) end; lra.
Qed.

(** Right of a rectangle of integral width the horizontal clamp is the
    width. *)
Lemma clampX_right (rect : Rect.t) (n : Z) (touchX : Q) :
  0 <= Rect.width rect -> Rect.width rect == inject_Z n ->
  Rect.width rect <= touchX - Rect.left rect ->
  clampX rect (offsetX rect touchX) == Rect.width rect.
Proof.
  intros Hw Hn Hd. unfold offsetX.
  assert (Rect.width rect <= inject_Z (Math_round (touchX - Rect.left rect))) as Hoff.
  { rewrite Hn. rewrite <- Zle_Qle. rewrite <- (Math_round_inject_Z n) at 1.
    apply Math_round_mono. lra. }
  unfold clampX, Qgtb, Qltb.
  destruct (Qlt_le_dec (Rect.width rect) _);
    match goal with |- context [Qlt_le_dec ?a 0] => destruct (Qlt_le_dec a 0) end; lra.
Qed.

End MapperFacts.

(** C3 (as amended): [getColorObject] rounds the vertical offset, caps it
    at the height of the rectangle and replaces it by [.1] only when the
    rounded offset is negative.  The effective [y] is therefore never
    negative, it is [.1] for a pointer above the rectangle, and a pointer
    exactly at the top edge keeps [y = 0]. *)
Theorem C3_clampY (rect : Rect.t) (touchY : Q) :
  let y := clampY rect (offsetY rect touchY) in
  0 <= y
  /\ (0 <= Rect.height rect -> offsetY rect touchY < 0 -> y = 1 # 10)
  /\ (0 <= Rect.height rect -> 0 <= offsetY rect touchY ->
      y == Qmin (offsetY rect touchY) (Rect.height rect))
  /\ (0 <= Rect.height rect -> touchY == Rect.top rect -> y == 0).
Proof.
  cbv zeta. split; [apply clampY_nonneg|]. split; [|split].
  - intros Hh Hneg. now apply clampY_cases.
  - intros Hh Hpos.
    destruct (Qlt_le_dec (Rect.height rect) (offsetY rect touchY)) as [Hgt|Hle].
    + destruct (clampY_cases rect (offsetY rect touchY) Hh) as (_ & _ & Hc).
      rewrite Hc by assumption. rewrite Q.min_r; lra.
    + destruct (clampY_cases rect (offsetY rect touchY) Hh) as (_ & Hc & _).
      rewrite Hc by assumption. rewrite Q.min_l; lra.
  - intros Hh Htop.
    assert (offsetY rect touchY = 0) as ->.
    { unfold offsetY. rewrite (Math_round_comp _ 0) by lra. reflexivity. }
    destruct (clampY_cases rect 0 Hh) as (_ & Hc & _). rewrite Hc; lra.
Qed.

(** C3, the claim as stated: at the top edge the effective [y] is [0],
    below the [.1] that a clamp to [[0.1, height]] would give. *)
Lemma C3_counterexample :
  let rect := Rect.make 0 0 200 100 in
  clampY rect (offsetY rect 0) == 0
  /\ ~ (1 # 10 <= clampY rect (offsetY rect 0))
  /\ ~ (clampY rect (offsetY rect 0) == clampYSpec rect (offsetY rect 0)).
Proof.
  cbv zeta.
  assert (clampY (Rect.make 0 0 200 100) (offsetY (Rect.make 0 0 200 100) 0) = 0) as ->
    by (vm_compute; reflexivity).
  assert (clampYSpec (Rect.make 0 0 200 100) (offsetY (Rect.make 0 0 200 100) 0) = 1 # 10) as ->
    by (vm_compute; reflexivity).
  repeat split; lra.
Qed.

(** The pointer mapping for any hue: ranges inside the rectangle, and the
    colour of the edge outside it (on the right for a whole width: the
    offset is rounded before it is clamped). *)
Lemma colorObjectAt_pointer (hue : Q) (rect : Rect.t) (touchX touchY : Q) :
  0 < Rect.width rect -> 0 < Rect.height rect ->
  (0 <= touchX - Rect.left rect <= Rect.width rect ->
   0 <= touchY - Rect.top rect <= Rect.height rect ->
   0 <= Hsv.s (colorObjectAt hue rect touchX touchY) <= 100
   /\ 0 <= Hsv.v (colorObjectAt hue rect touchX touchY) <= 100)
  /\ (touchX - Rect.left rect < 0 ->
      colorObjectAt hue rect touchX touchY = colorObjectAt hue rect (Rect.left rect) touchY)
  /\ (forall n : Z, Rect.width rect == inject_Z n ->
      Rect.width rect < touchX - Rect.left rect ->
      colorObjectAt hue rect touchX touchY
      = colorObjectAt hue rect (Rect.left rect + Rect.width rect) touchY).
Proof.
  intros Hw Hh. split; [|split].
  - intros Hx Hy. unfold colorObjectAt. simpl. split.
    + apply saturationOf_range; [assumption|]. apply clampX_range. lra.
    + apply brightnessOf_range; [assumption|].
      assert (0 <= offsetY rect touchY) as Hoff by (apply offset_nonneg; lra).
      apply clampY_range; lra.
  - intros Hx. unfold colorObjectAt. f_equal.
    apply saturationOf_comp.
    rewrite (clampX_left rect touchX) by lra.
    rewrite (clampX_left rect (Rect.left rect)) by lra. reflexivity.
  - intros n Hn Hx. unfold colorObjectAt. f_equal.
    apply saturationOf_comp.
    rewrite (clampX_right rect n touchX) by lra.
    rewrite (clampX_right rect n (Rect.left rect + Rect.width rect)) by lra. reflexivity.
Qed.

(** ** The converter, the derived values and the handlers *)

Section ComponentFacts.
Context `{TinyColor}.

Lemma alloc_fresh (hp : gmap positive object) (o : object) :
  hp !! (alloc hp o).1 = None.
Proof. simpl. apply not_elem_of_dom, is_fresh. Qed.

(** *** Converter *)

Lemma convertColor_HEX_string (lastValidColor str target : string) :
  convertColor lastValidColor COLOR_CODE.HEX (VString str) target
  = Normal (exportColor (if isHex str then tinycolor (VString str)
                         else tinycolor (VString lastValidColor)) target).
Proof. reflexivity. Qed.


Lemma sourceColor_total (lastValidColor colorCode : string) (value : colorValue) :
  sourceHasShape colorCode value ->
  exists colorObj, sourceColor lastValidColor colorCode value = Normal colorObj.
Proof.
  intros [Hhex Hhsv]. unfold sourceColor.
  destruct (String.eqb_spec colorCode COLOR_CODE.HEX) as [E|_].
  - destruct (Hhex E) as [str ->]. eauto.
  - destruct (String.eqb_spec colorCode COLOR_CODE.HSV) as [E|_]; [|eauto].
    specialize (Hhsv E). destruct value; eauto. congruence.
Qed.



Lemma convertToHsv_spec (lastValidColor colorCode : string) (value : colorValue)
    (colorObj : tinycolorObject) :
  sourceColor lastValidColor colorCode value = Normal colorObj ->
  convertToHsv lastValidColor colorCode value = Normal (toHsv colorObj).
Proof. intros E. unfold convertToHsv, convertColor. rewrite E. reflexivity. Qed.

(** *** [getHsv] and [getColorObject] *)

(** The whole percentages pass through [n / 100 * 100] with an error of
    at most [2 ^ -47], and unchanged but for eight of them. *)
Lemma throughHundredths_spec (n : Z) :
  (0 <= n <= 100)%Z ->
  Qabs (throughHundredths n - inject_Z n) <= 1 # (2 ^ 47)
  /\ (In n inexactPercentages <-> ~ throughHundredths n == inject_Z n).
Proof.
  intros Hn.
  set (check := fun n : Z =>
         Qle_bool (Qabs (throughHundredths n - inject_Z n)) (1 # (2 ^ 47))
         && Bool.eqb (existsb (Z.eqb n) inexactPercentages)
                     (negb (Qeq_bool (throughHundredths n) (inject_Z n)))).
  assert (forallb check (map Z.of_nat (seq 0 101)) = true) as Hall
    by (vm_compute; reflexivity).
  assert (check n = true) as Hcheck.
  { apply (proj1 (forallb_forall check _) Hall).
    replace n with (Z.of_nat (Z.to_nat n)) by lia.
    apply in_map, in_seq. lia. }
  unfold check in Hcheck. apply andb_prop in Hcheck as [Hle Heq].
  apply Qle_bool_iff in Hle. apply Bool.eqb_prop in Heq. split; [exact Hle|].
  split.
  - intros Hin Hq. apply Qeq_bool_iff in Hq. rewrite Hq in Heq. cbn [negb] in Heq.
    assert (existsb (Z.eqb n) inexactPercentages = true) as Hex.
    { apply existsb_exists. exists n. split; [assumption|apply Z.eqb_refl]. }
    congruence.
  - intros Hq. destruct (Qeq_bool (throughHundredths n) (inject_Z n)) eqn:E.
    + apply Qeq_bool_iff in E. contradiction.
    + cbn [negb] in Heq. apply existsb_exists in Heq as (m & Hin & Hm).
      apply Z.eqb_eq in Hm. now subst m.
Qed.

(** C5 (as amended): without an override, [getHsv] rounds the hue of
    the converted colour to a whole degree; its saturation and
    brightness, which the converter returns as fractions of 1, come back
    as [Math.round(x * 100) / 100 * 100] in doubles: the whole percentage
    [Math.round(x * 100)] up to an error of [2 ^ -47], and that very
    number but for 7, 14, 28, 29, 55, 56, 57 and 58. *)
Theorem C5_getHsv (st : Tag.t) (format : string) (sl : slot) (value : colorValue)
    (hsv : Hsv.t) (ns nv : Z) :
  Opts.hsv (Tag.opts st) = None ->
  currentColor st = Normal (format, sl) ->
  readSlot (Tag.heap st) sl = Normal value ->
  convertToHsv (Tag.lastValidColor st) format value = Normal hsv ->
  Math_round (Double.product (Hsv.s hsv) 100) = ns -> (0 <= ns <= 100)%Z ->
  Math_round (Double.product (Hsv.v hsv) 100) = nv -> (0 <= nv <= 100)%Z ->
  exists out,
    getHsv st = Normal out
    /\ Hsv.h out = inject_Z (Math_round (Hsv.h hsv))
    /\ Qabs (Hsv.s out - inject_Z ns) <= 1 # (2 ^ 47)
    /\ (In ns inexactPercentages <-> ~ Hsv.s out == inject_Z ns)
    /\ Qabs (Hsv.v out - inject_Z nv) <= 1 # (2 ^ 47)
    /\ (In nv inexactPercentages <-> ~ Hsv.v out == inject_Z nv).
Proof.
  intros Hopts Hcur Hslot Hconv Hs Hns Hv Hnv. unfold getHsv.
  rewrite Hopts, Hcur. cbn [bind]. rewrite Hslot. cbn [bind]. rewrite Hconv. cbn [bind].
  rewrite Hs, Hv. fold (throughHundredths ns). fold (throughHundredths nv).
  eexists. split; [reflexivity|]. cbn [Hsv.h Hsv.s Hsv.v]. split; [reflexivity|].
  destruct (throughHundredths_spec ns Hns) as [Hes His].
  destruct (throughHundredths_spec nv Hnv) as [Hev Hiv].
  repeat split; try assumption; try apply His; try apply Hiv.
Qed.

Lemma getColorObject_spec (st : Tag.t) (rect : Rect.t) (touchX touchY : Q) (hsv : Hsv.t) :
  getHsv st = Normal hsv ->
  getColorObject st rect touchX touchY = Normal (colorObjectAt (Hsv.h hsv) rect touchX touchY).
Proof. intros E. unfold getColorObject. now rewrite E. Qed.

(** C9 (as amended): on a rectangle of positive width and height,
    [getColorObject] returns saturation and brightness in [[0, 100]] for
    a pointer inside it; a pointer left of the rectangle yields the
    colour of its left edge; a pointer right of it yields the colour of
    its right edge when the width is a whole number. *)
Theorem C9_getColorObject (st : Tag.t) (rect : Rect.t) (touchX touchY : Q) (hsv : Hsv.t) :
  getHsv st = Normal hsv ->
  0 < Rect.width rect -> 0 < Rect.height rect ->
  (0 <= touchX - Rect.left rect <= Rect.width rect ->
   0 <= touchY - Rect.top rect <= Rect.height rect ->
   exists c, getColorObject st rect touchX touchY = Normal c
             /\ Hsv.h c = Hsv.h hsv
             /\ 0 <= Hsv.s c <= 100 /\ 0 <= Hsv.v c <= 100)
  /\ (touchX - Rect.left rect < 0 ->
      getColorObject st rect touchX touchY
      = getColorObject st rect (Rect.left rect) touchY)
  /\ (forall n : Z, Rect.width rect == inject_Z n ->
      Rect.width rect < touchX - Rect.left rect ->
      getColorObject st rect touchX touchY
      = getColorObject st rect (Rect.left rect + Rect.width rect) touchY).
Proof.
  intros Hhsv Hw Hh.
  destruct (colorObjectAt_pointer (Hsv.h hsv) rect touchX touchY Hw Hh) as (Hin & Hleft & Hright).
  rewrite !(getColorObject_spec st rect _ _ hsv Hhsv). split; [|split].
  - intros Hx Hy. eexists. split; [reflexivity|]. split; [reflexivity|]. now apply Hin.
  - intros Hx. now rewrite Hleft.
  - intros n Hn Hx. now rewrite (Hright n).
Qed.


(** *** The format cycler *)

Lemma indexOf_order (format : string) (index : nat) :
  indexOf order format = Some index ->
  (index = 0%nat /\ format = COLOR_CODE.HEX) \/ (index = 1%nat /\ format = COLOR_CODE.RGBA).
Proof.
  unfold order. cbn [indexOf].
  destruct (String.eqb_spec COLOR_CODE.HEX format) as [<-|_].
  - intros [= <-]. now left.
  - destruct (String.eqb_spec COLOR_CODE.RGBA format) as [<-|_]; cbn.
    + intros [= <-]. now right.
    + discriminate.
Qed.

(** The loop stops within two iterations when the format it starts from
    is selectable. *)
Lemma cycleIndex_terminates (m : gmap string bool) (format : string) (index : nat) :
  indexOf order format = Some index -> selectable m format = true ->
  exists index', forall fuel, (2 <= fuel)%nat -> cycleIndex fuel m index = Some index'.
Proof.
  intros Hidx Hsel.
  destruct (indexOf_order format index Hidx) as [[-> ->]|[-> ->]].
  - destruct (selectable m COLOR_CODE.RGBA) eqn:Hother.
    + exists 1%nat. intros [|[|fuel]] Hfuel; try lia. simpl.
      change (selectable m "RGBA") with (selectable m COLOR_CODE.RGBA). now rewrite Hother.
    + exists 0%nat. intros [|[|fuel]] Hfuel; try lia. simpl.
      change (selectable m "RGBA") with (selectable m COLOR_CODE.RGBA). rewrite Hother. simpl.
      change (selectable m "HEX") with (selectable m COLOR_CODE.HEX). now rewrite Hsel.
  - destruct (selectable m COLOR_CODE.HEX) eqn:Hother.
    + exists 0%nat. intros [|[|fuel]] Hfuel; try lia. simpl.
      change (selectable m "HEX") with (selectable m COLOR_CODE.HEX). now rewrite Hother.
    + exists 1%nat. intros [|[|fuel]] Hfuel; try lia. simpl.
      change (selectable m "HEX") with (selectable m COLOR_CODE.HEX). rewrite Hother. simpl.
      change (selectable m "RGBA") with (selectable m COLOR_CODE.RGBA). now rewrite Hsel.
Qed.

Lemma cycleIndex_HEX_only (m : gmap string bool) (fuel : nat) :
  selectable m COLOR_CODE.HEX = true -> selectable m COLOR_CODE.RGBA = false ->
  (2 <= fuel)%nat -> cycleIndex fuel m 0 = Some 0%nat.
Proof.
  intros Hhex Hrgba Hfuel. destruct fuel as [|[|fuel]]; try lia. simpl.
  change (selectable m "RGBA") with (selectable m COLOR_CODE.RGBA). rewrite Hrgba. simpl.
  change (selectable m "HEX") with (selectable m COLOR_CODE.HEX). now rewrite Hhex.
Qed.

(** Without a selectable format the loop never stops: the guarantee of
    termination rests on the current format being selectable. *)
Lemma cycleIndex_diverges (m : gmap string bool) (fuel index : nat) :
  selectable m COLOR_CODE.HEX = false -> selectable m COLOR_CODE.RGBA = false ->
  (index < 2)%nat -> cycleIndex fuel m index = None.
Proof.
  intros Hhex Hrgba. revert index.
  induction fuel as [|fuel IH]; intros index Hindex; [reflexivity|].
  destruct index as [|[|index]]; try lia; cbn [cycleIndex].
  - change (selectable m (order !!! nextIndex 0)) with (selectable m COLOR_CODE.RGBA).
    rewrite Hrgba. cbn [negb]. apply IH. unfold nextIndex. simpl. lia.
  - change (selectable m (order !!! nextIndex 1)) with (selectable m COLOR_CODE.HEX).
    rewrite Hhex. cbn [negb]. apply IH. unfold nextIndex. simpl. lia.
Qed.

(** C2: when the current format is in the priority order and is
    selectable, the cycling handler finishes (with the same outcome for
    every bound of at least two iterations); with HEX selectable and RGBA
    not, cycling from a HEX colour emits a colour of format HEX whose
    value is the converter's hex string of the current value. *)
Theorem C2_handleColorChangeButtonTap (st : Tag.t) (format : string) (sl : slot)
    (m : gmap string bool) (index : nat) :
  currentColor st = Normal (format, sl) ->
  indexOf order format = Some index ->
  readMap (Tag.heap st) (Tag.selectableColorCode st) = Normal m ->
  selectable m format = true ->
  (exists res, forall fuel, (2 <= fuel)%nat -> handleColorChangeButtonTap fuel st = Some res)
  /\ (forall str : string,
      format = COLOR_CODE.HEX -> sl = SString str -> selectable m COLOR_CODE.RGBA = false ->
      forall fuel, (2 <= fuel)%nat ->
      exists st' e,
        handleColorChangeButtonTap fuel st = Some (Normal (st', e))
        /\ Tag.heap st' !! Emitted.color e
           = Some (ColorObject COLOR_CODE.HEX
                     (SString (toHexString
                                 (if isHex str then tinycolor (VString str)
                                  else tinycolor (VString (Tag.lastValidColor st))))))).
Proof.
  intros Hcur Hidx Hmap Hsel. split.
  - destruct (cycleIndex_terminates m format index Hidx Hsel) as [index' Hloop].
    eexists. intros fuel Hfuel. unfold handleColorChangeButtonTap.
    rewrite Hcur, Hidx, Hmap, (Hloop fuel Hfuel). simpl. reflexivity.
  - intros str -> -> Hrgba fuel Hfuel.
    assert (index = 0%nat) as -> by (destruct (indexOf_order _ _ Hidx) as [[? _]|[_ [=]]]; assumption).
    unfold handleColorChangeButtonTap.
    rewrite Hcur, Hidx, Hmap, (cycleIndex_HEX_only m fuel Hsel Hrgba Hfuel). simpl.
    do 2 eexists. split; [reflexivity|]. simpl.
    rewrite lookup_insert_eq. reflexivity.
Qed.

(** *** The hue memory *)

(** The hue slider never writes [latestValidHue]. *)
Lemma handleHueSliderChange_latestValidHue (st st' : Tag.t) (hue : Q) (e : Emitted.t) :
  handleHueSliderChange st hue = Normal (st', e) ->
  Tag.latestValidHue st' = Tag.latestValidHue st.
Proof.
  unfold handleHueSliderChange. intros Hrun.
  destruct (currentColor st) as [[format sl]|]; cbn [bind] in Hrun; [|discriminate].
  destruct (readSlot _ sl) as [val|]; cbn [bind] in Hrun; [|discriminate].
  destruct (convertToHsv _ format val) as [hsv|]; cbn [bind] in Hrun; [|discriminate].
  destruct (convertColor _ _ _ format) as [colorValue|]; cbn [bind] in Hrun; [|discriminate].
  destruct (newColor _ _ _) as [l hp]. now inversion Hrun.
Qed.


(** *** Construction and update *)

(** After the initialisation the format of the current colour is
    selectable. *)
Lemma init_selectable (hp : gmap positive object) (o : Opts.t) (st : Tag.t) :
  init hp o = Normal st ->
  exists format sl m,
    currentColor st = Normal (format, sl)
    /\ readMap (Tag.heap st) (Tag.selectableColorCode st) = Normal m
    /\ selectable m format = true.
Proof.
  unfold init.
  destruct (selectableOrDefault hp o) as [sel hp1].
  destruct (colorOrDefault hp1 o) as [col hp2]. intros Hrun.
  destruct (readColor hp2 col) as [[format sl]|] eqn:Hcol; cbn [bind] in Hrun; [|discriminate].
  destruct (readMap hp2 sel) as [m|] eqn:Hmap; cbn [bind] in Hrun; [|discriminate].
  inversion Hrun; subst st; clear Hrun. unfold currentColor. cbn [Tag.heap Tag.color Tag.selectableColorCode].
  destruct (selectable m format) eqn:Hsel; cbn [negb].
  - exists format, sl, m. auto.
  - exists format, sl, (<[format := true]> m).
    unfold readColor, readMap in *.
    assert (col <> sel) as Hne.
    { intros ->. destruct (hp2 !! sel) as [[]|]; discriminate. }
    rewrite lookup_insert_ne by congruence. rewrite lookup_insert_eq.
    split; [assumption|]. split; [reflexivity|].
    unfold selectable. now rewrite lookup_insert_eq.
Qed.

(** The update handler takes the objects of the host as they are: when
    the host supplies both, the heap is not written, so the map of
    selectable formats is not widened. *)
Lemma update_frame (o : Opts.t) (st st' : Tag.t) (sel col : positive) :
  Opts.selectablecolorcode o = Some sel -> Opts.color o = Some col ->
  update o st = Normal st' ->
  Tag.heap st' = Tag.heap st /\ Tag.selectableColorCode st' = sel /\ Tag.color st' = col.
Proof.
  intros Hsel Hcol. unfold update, selectableOrDefault, colorOrDefault.
  rewrite Hsel, Hcol. intros Hrun.
  destruct (readColor _ col) as [[format sl]|]; cbn [bind] in Hrun; [|discriminate].
  match type of Hrun with bind ?c _ = _ => destruct c as [lastValid|] end;
    cbn [bind] in Hrun; [|discriminate].
  unfold updateSpectrum in Hrun.
  destruct (getHsv _) as [hsv|]; cbn [bind] in Hrun; [|discriminate].
  destruct (convertColor _ _ _ _); cbn [bind] in Hrun; [|discriminate].
  inversion Hrun. auto.
Qed.

(** *** In-place writes *)

Lemma readSlot_insert_color (hp : gmap positive object) (sl : slot) (value : colorValue)
    (l : positive) (format format' : string) (sl0 sl' : slot) :
  hp !! l = Some (ColorObject format sl0) ->
  readSlot hp sl = Normal value ->
  readSlot (<[l := ColorObject format' sl']> hp) sl = Normal value.
Proof.
  intros Hl. destruct sl as [str|lv|]; simpl; try easy.
  destruct (decide (l = lv)) as [->|Hne].
  - rewrite Hl. discriminate.
  - now rewrite lookup_insert_ne.
Qed.

Lemma inputChannel_writes (update : Rgba.t -> Rgba.t) (st : Tag.t) (lv : positive) (c : Rgba.t) :
  currentColor st = Normal (COLOR_CODE.RGBA, SRef lv) ->
  Tag.heap st !! lv = Some (RgbaObject c) ->
  writesChannel st lv (update c) (inputChannel update st).
Proof.
  intros Hcur Hlv. unfold writesChannel, inputChannel. rewrite Hcur. cbn [bind].
  exists (fresh (dom (Tag.heap st))).
  pose proof (alloc_fresh (Tag.heap st) (ColorObject COLOR_CODE.RGBA (SRef lv))) as Hfresh.
  simpl in Hfresh. split; [assumption|].
  unfold alloc, assignChannel.
  rewrite lookup_insert_ne by congruence. rewrite Hlv. reflexivity.
Qed.

(** The alpha slider and the four text inputs write into the stored
    current colour.  On an RGBA colour the alpha slider
    overwrites the alpha of the stored value object and emits
    [this.color] itself; a text input overwrites its channel of the
    stored value object and emits a new object that shares that value.
    On a colour of another format the alpha slider turns the stored
    colour object itself into an RGBA colour and emits it. *)
Lemma handlers_write_in_place (st : Tag.t) (alpha : Q) (input : option Q) :
  (forall (lv : positive) (c : Rgba.t),
    currentColor st = Normal (COLOR_CODE.RGBA, SRef lv) ->
    Tag.heap st !! lv = Some (RgbaObject c) ->
    handleAlphaSliderChange st alpha
    = Normal (Tag.setHeap (<[lv := RgbaObject (withA (Double.quotient alpha 100) c)]>
                             (Tag.heap st)) st,
              Emitted.make (Tag.color st) (Opts.hsv (Tag.opts st)))
    /\ writesChannel st lv (withR (orZero input) c) (handleInputRgbaRedInput st input)
    /\ writesChannel st lv (withG (orZero input) c) (handleInputRgbaGreenInput st input)
    /\ writesChannel st lv (withB (orZero input) c) (handleInputRgbaBlueInput st input)
    /\ writesChannel st lv (withA (orZero input / 100) c) (handleInputAlphaInput st input))
  /\ (forall (format : string) (sl : slot) (value : colorValue),
      currentColor st = Normal (format, sl) ->
      format <> COLOR_CODE.RGBA ->
      readSlot (Tag.heap st) sl = Normal value ->
      exists st' l,
        handleAlphaSliderChange st alpha
        = Normal (st', Emitted.make (Tag.color st) (Opts.hsv (Tag.opts st)))
        /\ Tag.color st' = Tag.color st
        /\ Tag.heap st' !! Tag.color st = Some (ColorObject COLOR_CODE.RGBA (SRef l))
        /\ Tag.heap st' !! l
           = Some (RgbaObject (withA (Double.quotient alpha 100)
                                     (toRgb (tinycolor value))))).
Proof.
  split.
  - intros lv c Hcur Hlv. split; [|repeat split; now apply inputChannel_writes].
    unfold handleAlphaSliderChange. unfold currentColor in Hcur. rewrite Hcur.
    cbn [bind]. rewrite String.eqb_refl. cbn [negb bind].
    unfold assignChannel. rewrite Hlv. reflexivity.
  - intros format sl value Hcur Hne Hslot.
    unfold handleAlphaSliderChange. unfold currentColor in Hcur. rewrite Hcur.
    cbn [bind]. apply String.eqb_neq in Hne. rewrite Hne. cbn [negb].
    assert (Tag.heap st !! Tag.color st = Some (ColorObject format sl)) as Hobj.
    { unfold readColor in Hcur.
      destruct (Tag.heap st !! Tag.color st) as [[]|]; try discriminate. congruence. }
    rewrite (readSlot_insert_color _ _ value _ _ COLOR_CODE.RGBA _ sl Hobj Hslot).
    cbn [bind].
    assert (convertColor (Tag.lastValidColor st) COLOR_CODE.RGBA value COLOR_CODE.RGBA
            = Normal (VRgba (toRgb (tinycolor value)))) as -> by reflexivity.
    cbn [bind storeValue].
    set (hp0 := <[Tag.color st := ColorObject COLOR_CODE.RGBA sl]> (Tag.heap st)).
    pose proof (alloc_fresh hp0 (RgbaObject (toRgb (tinycolor value)))) as Hfresh.
    unfold alloc in *. cbn [fst] in Hfresh.
    set (l := fresh (dom hp0)) in *.
    assert (l <> Tag.color st) as Hl.
    { intros E. rewrite E in Hfresh. unfold hp0 in Hfresh.
      rewrite lookup_insert_eq in Hfresh. discriminate. }
    cbn [bind]. unfold assignChannel.
    rewrite lookup_insert_ne by congruence. rewrite lookup_insert_eq. cbn [bind].
    eexists _, l. split; [reflexivity|]. cbn [Tag.setHeap Tag.color Tag.heap].
    split; [reflexivity|]. split.
    + rewrite lookup_insert_ne by congruence. now rewrite lookup_insert_eq.
    + now rewrite lookup_insert_eq.
Qed.

End ComponentFacts.

(** ** More on the hex input validator *)

Section MoreHexFacts.

Lemma allHexDigits_app (s t : string) :
  allHexDigits (s ++ t) = allHexDigits s && allHexDigits t.
Proof.
  induction s as [|c rest IH]; simpl; [reflexivity|].
  now rewrite IH, andb_assoc.
Qed.

Lemma string_length_app (s t : string) :
  String.length (s ++ t) = (String.length s + String.length t)%nat.
Proof. induction s as [|c rest IH]; simpl; [reflexivity|]. now rewrite IH. Qed.

(** The digits of a string and of a longer one. *)
Lemma dropPoundKey_app (c : ascii) (rest t : string) :
  dropPoundKey (String c rest ++ t) = (dropPoundKey (String c rest) ++ t)%string.
Proof. destruct c as [[] [] [] [] [] [] [] []]; reflexivity. Qed.

Lemma dropPoundKey_length (s : string) :
  (String.length s <= S (String.length (dropPoundKey s)))%nat.
Proof.
  destruct s as [|c rest]; [simpl; lia|].
  destruct (ascii_dec c "#"%char) as [->|Hne]; [simpl; lia|].
  assert (dropPoundKey (String c rest) = String c rest) as ->; [|lia].
  simpl. destruct c as [[] [] [] [] [] [] [] []]; try reflexivity. now elim Hne.
Qed.

Lemma concatenatePoundKey_cases (s : string) :
  (exists rest, s = String "#"%char rest /\ concatenatePoundKey s = s)
  \/ (dropPoundKey s = s /\ concatenatePoundKey s = String "#"%char s).
Proof.
  destruct s as [|c rest]; [right; split; reflexivity|].
  destruct (ascii_dec c "#"%char) as [->|Hne]; [left; eauto|].
  right. split; simpl; destruct c as [[] [] [] [] [] [] [] []]; try reflexivity; now elim Hne.
Qed.

End MoreHexFacts.

(** X1: the typing pattern is closed under deleting characters at the
    end (every prefix of a string that may be typed may be typed), and a
    string that matches it has at most seven characters. *)
Theorem X1_isTypingHex_prefix (s t : string) :
  isTypingHex (s ++ t) = true ->
  isTypingHex s = true /\ (String.length (s ++ t) <= 7)%nat.
Proof.
  intros Ht. split.
  - destruct s as [|c rest]; [reflexivity|].
    unfold isTypingHex in *. rewrite dropPoundKey_app in Ht.
    apply andb_prop in Ht as [Hd Hlen].
    rewrite allHexDigits_app in Hd. apply andb_prop in Hd as [Hd _].
    rewrite Hd. cbn [andb]. apply Nat.leb_le in Hlen. apply Nat.leb_le.
    rewrite string_length_app in Hlen. lia.
  - unfold isTypingHex in Ht. apply andb_prop in Ht as [_ Hlen].
    apply Nat.leb_le in Hlen. pose proof (dropPoundKey_length (s ++ t)). lia.
Qed.

(** X2: [concatenatePoundKey] returns a string that starts with [#] and
    has the digits of its argument; it is idempotent and changes neither
    the committed nor the typing status of a string. *)
Theorem X2_concatenatePoundKey (s : string) :
  concatenatePoundKey s = String "#"%char (dropPoundKey s)
  /\ concatenatePoundKey (concatenatePoundKey s) = concatenatePoundKey s
  /\ isHex (concatenatePoundKey s) = isHex s
  /\ isTypingHex (concatenatePoundKey s) = isTypingHex s.
Proof.
  destruct (concatenatePoundKey_cases s) as [(rest & -> & E)|[Hd E]].
  - rewrite !E. repeat split; reflexivity.
  - rewrite !E. unfold isHex, isTypingHex. cbn [dropPoundKey concatenatePoundKey].
    rewrite Hd. repeat split.
Qed.

(** X3: an input that matches the typing pattern is accepted: the
    result matches the typing pattern, has the digits of the input, starts
    with [#] when the input is a committed hex, and is a fixed point of the
    normalisation. *)
Theorem X3_normalizeHexValue_accepted (previous raw : string) :
  isTypingHex raw = true ->
  let result := normalizeHexValue id previous raw in
  isTypingHex result = true
  /\ dropPoundKey result = dropPoundKey raw
  /\ isHex result = isHex raw
  /\ (isHex raw = true -> result = String "#"%char (dropPoundKey raw))
  /\ normalizeHexValue id previous result = result.
Proof.
  intros Ht. cbv zeta. rewrite normalizeHexValue_cases.
  destruct (isHex raw) eqn:Hh; unfold id.
  - assert (concatenatePoundKey raw = String "#"%char (dropPoundKey raw)) as E.
    { destruct (concatenatePoundKey_cases raw) as [(rest & -> & E)|[Hd E]]; rewrite E;
        [reflexivity | now rewrite Hd]. }
    rewrite E.
    assert (isHex (String "#"%char (dropPoundKey raw)) = true) as Hh'
      by (unfold isHex in *; exact Hh).
    assert (isTypingHex (String "#"%char (dropPoundKey raw)) = true) as Ht'
      by (unfold isTypingHex in *; exact Ht).
    repeat split; try assumption; try reflexivity.
    rewrite normalizeHexValue_cases, Hh'. reflexivity.
  - rewrite Ht. repeat split; try assumption; try reflexivity.
    + discriminate.
    + rewrite normalizeHexValue_cases, Hh, Ht. reflexivity.
Qed.

(** ** More on the coordinate mapper *)

Section MoreMapperFacts.










End MoreMapperFacts.

(** ** More on the converter, the derived values and the handlers *)

Section MoreComponentFacts.
Context `{TinyColor}.

(** *** The knob of the spectrum *)

Lemma clampPercent (q : Q) :
  let p := if Qltb (if Qgtb q 100 then 100 else q) 0 then 0
           else (if Qgtb q 100 then 100 else q) in
  0 <= p <= 100 /\ p == Qmax 0 (Qmin 100 q) /\ (0 <= q <= 100 -> p = q).
Proof.
  cbv zeta. unfold Qgtb, Qltb.
  destruct (Qlt_le_dec 100 q) as [Hhi|Hhi];
    match goal with |- context [Qlt_le_dec ?a 0] => destruct (Qlt_le_dec a 0) as [Hlo|Hlo] end;
    (split; [lra|]); (split; [|intros; try reflexivity; lra]).
  all: destruct (Q.min_spec 100 q) as [[? ->]|[? ->]];
    match goal with |- context [Qmax 0 ?a] =>
      destruct (Q.max_spec 0 a) as [[? ->]|[? ->]] end; lra.
Qed.

(** X4: the knob of the spectrum, by the comparisons of the code.  On
    the one axis the position is the saturation when that lies within
    [[0, 100]], 100 when it is above and 0 when it is below; on the other
    it lies within [[0, 100]] when the brightness does, and is 0 for a
    brightness above 100 and 100 for a negative one.  Any other
    parameter gives [undefined]. *)
Theorem X4_getSpectrumPosition (st : Tag.t) (hsv : Hsv.t) :
  getHsv st = Normal hsv ->
  (exists ps pb,
     getSpectrumPosition st "saturation" = Normal (Some ps)
     /\ getSpectrumPosition st "brightness" = Normal (Some pb)
     /\ (0 <= Hsv.s hsv <= 100 -> ps = Hsv.s hsv)
     /\ (100 < Hsv.s hsv -> ps = 100)
     /\ (Hsv.s hsv < 0 -> ps = 0)
     /\ (0 <= Hsv.v hsv <= 100 -> 0 <= pb <= 100)
     /\ (100 < Hsv.v hsv -> pb = 0)
     /\ (Hsv.v hsv < 0 -> pb = 100))
  /\ (forall param : string,
      param <> "saturation"%string -> param <> "brightness"%string ->
      getSpectrumPosition st param = Normal None).
Proof.
  intros Hhsv. unfold getSpectrumPosition. rewrite Hhsv. cbn [bind]. split.
  - do 2 eexists. split; [reflexivity|]. split; [reflexivity|].
    destruct (clampPercent (Hsv.s hsv)) as (Hs & _ & Hs').
    destruct (clampPercent (100 - Hsv.v hsv)) as (Hb & _ & _).
    cbv zeta in Hs, Hs', Hb.
    split; [exact Hs'|]. unfold Qgtb, Qltb in *.
    split.
    { intros Hhi. destruct (Qlt_le_dec 100 (Hsv.s hsv)) as [_|Hle]; [|exfalso; lra].
      destruct (Qlt_le_dec 100 0) as [Hlt|_]; [exfalso; lra|reflexivity]. }
    split.
    { intros Hlo. destruct (Qlt_le_dec 100 (Hsv.s hsv)) as [Hlt|_]; [exfalso; lra|].
      destruct (Qlt_le_dec (Hsv.s hsv) 0) as [_|Hle]; [reflexivity|exfalso; lra]. }
    split; [intros _; exact Hb|].
    split.
    { intros Hhi. destruct (Qlt_le_dec 100 (100 - Hsv.v hsv)) as [Hlt|_]; [exfalso; lra|].
      destruct (Qlt_le_dec (100 - Hsv.v hsv) 0) as [_|Hle]; [reflexivity|exfalso; lra]. }
    intros Hlo. destruct (Qlt_le_dec 100 (100 - Hsv.v hsv)) as [_|Hle]; [|exfalso; lra].
    destruct (Qlt_le_dec 100 0) as [Hlt|_]; [exfalso; lra|reflexivity].
  - intros param Hs Hb.
    apply String.eqb_neq in Hs, Hb. now rewrite Hs, Hb.
Qed.




(** *** The errors of the converter *)


End MoreComponentFacts.

(** ** The handlers on well-typed states *)

Section HandlerFacts.
Context `{TinyColor}.

Lemma extends_refl (hp : gmap positive object) : extends hp hp.
Proof. intros l o Hl. exact Hl. Qed.

Lemma extends_trans (hp1 hp2 hp3 : gmap positive object) :
  extends hp1 hp2 -> extends hp2 hp3 -> extends hp1 hp3.
Proof. intros H12 H23 l o Hl. apply H23, H12, Hl. Qed.

Lemma extends_insert_fresh (hp : gmap positive object) (l : positive) (o : object) :
  hp !! l = None -> extends hp (<[l := o]> hp).
Proof.
  intros Hl l' o' Hl'. rewrite lookup_insert_ne; [assumption|]. intros ->. congruence.
Qed.

Lemma extends_fresh (hp hp' : gmap positive object) (l : positive) :
  extends hp hp' -> hp' !! l = None -> hp !! l = None.
Proof.
  intros Hext Hl. destruct (hp !! l) as [o|] eqn:E; [|reflexivity].
  apply Hext in E. congruence.
Qed.

Lemma wellTyped_extends (hp hp' : gmap positive object) (format : string) (sl : slot) :
  extends hp hp' -> wellTyped hp format sl -> wellTyped hp' format sl.
Proof.
  intros Hext [Hhex|(Hf & lv & c & Hsl & Hlv)]; [now left|].
  right. split; [assumption|]. exists lv, c. split; [assumption|]. now apply Hext.
Qed.

(** The value of a well-typed colour can be read and has the shape of
    its format. *)
Lemma wellTyped_readSlot (hp : gmap positive object) (format : string) (sl : slot) :
  wellTyped hp format sl ->
  exists value, readSlot hp sl = Normal value /\ sourceHasShape format value.
Proof.
  intros [(-> & str & ->)|(-> & lv & c & -> & Hlv)].
  - exists (VString str). split; [reflexivity|]. split; [eauto|discriminate].
  - exists (VRgba c). split; [simpl; now rewrite Hlv|]. split; discriminate.
Qed.

Lemma convertToHsv_total (lastValidColor colorCode : string) (value : colorValue) :
  sourceHasShape colorCode value ->
  exists hsv, convertToHsv lastValidColor colorCode value = Normal hsv.
Proof.
  intros Hshape.
  destruct (sourceColor_total lastValidColor colorCode value Hshape) as [obj Hobj].
  exists (toHsv obj). now apply convertToHsv_spec.
Qed.


(** What the converter exports for the two stored formats. *)
Lemma exportColor_stored (colorObj : tinycolorObject) (format : string) :
  (format = COLOR_CODE.HEX -> exportColor colorObj format = VString (toHexString colorObj))
  /\ (format = COLOR_CODE.RGBA -> exportColor colorObj format = VRgba (toRgb colorObj)).
Proof. split; intros ->; reflexivity. Qed.


Lemma wellTyped_format (hp : gmap positive object) (format : string) (sl : slot) :
  wellTyped hp format sl -> format = COLOR_CODE.HEX \/ format = COLOR_CODE.RGBA.
Proof. intros [[-> _]|[-> _]]; auto. Qed.

(** A new colour object for an exported value. *)
Lemma newColor_exported (hp hp' : gmap positive object) (format : string)
    (colorObj : tinycolorObject) (l : positive) :
  format = COLOR_CODE.HEX \/ format = COLOR_CODE.RGBA ->
  newColor hp format (exportColor colorObj format) = (l, hp') ->
  hp !! l = None /\ extends hp hp'
  /\ exists sl', hp' !! l = Some (ColorObject format sl') /\ wellTyped hp' format sl'.
Proof.
  intros [->| ->]; unfold newColor.
  - change (exportColor colorObj COLOR_CODE.HEX) with (VString (toHexString colorObj)).
    cbn [storeValue]. unfold alloc. intros [= <- <-].
    assert (hp !! fresh (dom hp) = None) as Hfresh by apply not_elem_of_dom, is_fresh.
    split; [assumption|]. split; [now apply extends_insert_fresh|].
    eexists. split; [apply lookup_insert_eq|]. left. eauto.
  - change (exportColor colorObj COLOR_CODE.RGBA) with (VRgba (toRgb colorObj)).
    cbn [storeValue]. unfold alloc.
    set (l1 := fresh (dom hp)).
    set (hp1 := <[l1 := RgbaObject (toRgb colorObj)]> hp).
    intros [= <- <-].
    assert (hp !! l1 = None) as Hfresh1 by apply not_elem_of_dom, is_fresh.
    assert (hp1 !! fresh (dom hp1) = None) as Hfresh2 by apply not_elem_of_dom, is_fresh.
    assert (extends hp hp1) as Hext1 by now apply extends_insert_fresh.
    split; [now apply (extends_fresh hp hp1)|].
    split; [eapply extends_trans; [exact Hext1|now apply extends_insert_fresh]|].
    eexists. split; [apply lookup_insert_eq|]. right. split; [reflexivity|].
    exists l1, (toRgb colorObj). split; [reflexivity|].
    rewrite lookup_insert_ne; [apply lookup_insert_eq|].
    intros E. rewrite E in Hfresh2. unfold hp1 in Hfresh2.
    rewrite lookup_insert_eq in Hfresh2. discriminate.
Qed.



(** X10: on a well-typed state the hue slider does not throw; it emits
    a new colour object of the current format and an hsv whose hue is the
    slider value and whose saturation and brightness are whole numbers,
    and it leaves every existing object, [latestValidHue] included,
    unchanged. *)
Theorem X10_handleHueSliderChange (st : Tag.t) (hue : Q) (format : string) (sl : slot) :
  currentColor st = Normal (format, sl) -> wellTyped (Tag.heap st) format sl ->
  exists st' e (s v : Z),
    handleHueSliderChange st hue = Normal (st', e)
    /\ Emitted.hsv e = Some (Hsv.make hue (inject_Z s) (inject_Z v))
    /\ freshEmission st st' e format
    /\ Tag.latestValidHue st' = Tag.latestValidHue st
    /\ Tag.isCatcherActive st' = Tag.isCatcherActive st.
Proof.
  intros Hcur Htyped.
  pose proof (wellTyped_format _ _ _ Htyped) as Hformat.
  unfold handleHueSliderChange. rewrite Hcur. cbn [bind].
  destruct (wellTyped_readSlot _ _ _ Htyped) as (value & -> & Hshape). cbn [bind].
  destruct (convertToHsv_total (Tag.lastValidColor st) format value Hshape) as [hsv ->].
  cbn [bind].
  set (picked := Hsv.make hue (inject_Z (Math_round (Double.product (Hsv.s hsv) 100)))
                          (inject_Z (Math_round (Double.product (Hsv.v hsv) 100)))).
  assert (convertColor (Tag.lastValidColor st) COLOR_CODE.HSV (VHsv picked) format
          = Normal (exportColor (tinycolorHsvString (Hsv.h picked) (Hsv.s picked) (Hsv.v picked))
                                format)) as -> by reflexivity.
  cbn [bind].
  destruct (newColor (Tag.heap st) format _) as [l hp'] eqn:Hnew.
  destruct (newColor_exported _ _ _ _ _ Hformat Hnew) as (Hfresh & Hext & Hobj).
  do 4 eexists. split; [reflexivity|]. split; [reflexivity|].
  split; [|split; reflexivity].
  unfold freshEmission. cbn [Tag.setHeap Tag.heap Tag.color Tag.selectableColorCode
                            Tag.lastValidColor Tag.opts Emitted.color].
  repeat split; assumption.
Qed.

End HandlerFacts.

Section MoreHandlerFacts.
Context `{TinyColor}.

(** *** Alpha *)


Lemma readColor_object (hp : gmap positive object) (l : positive) (format : string) (sl : slot) :
  readColor hp l = Normal (format, sl) <-> hp !! l = Some (ColorObject format sl).
Proof.
  unfold readColor. split.
  - destruct (hp !! l) as [[]|]; try discriminate. now intros [= -> ->].
  - now intros ->.
Qed.

(** X11: on a well-typed state the alpha slider does not throw and
    emits [this.color] itself with [opts.hsv]; afterwards the current
    colour is an RGBA colour, whatever its format was, whose value object
    holds the double [alpha / 100] as its alpha; the value object of an
    RGBA colour keeps its other three channels. *)
Theorem X11_handleAlphaSliderChange (st : Tag.t) (alpha : Q) (format : string) (sl : slot) :
  currentColor st = Normal (format, sl) -> wellTyped (Tag.heap st) format sl ->
  exists st' e lv c',
    handleAlphaSliderChange st alpha = Normal (st', e)
    /\ Emitted.color e = Tag.color st
    /\ Emitted.hsv e = Opts.hsv (Tag.opts st)
    /\ currentColor st' = Normal (COLOR_CODE.RGBA, SRef lv)
    /\ Tag.heap st' !! lv = Some (RgbaObject c')
    /\ wellTyped (Tag.heap st') COLOR_CODE.RGBA (SRef lv)
    /\ Rgba.a c' = Double.quotient alpha 100
    /\ (forall c, Tag.heap st !! lv = Some (RgbaObject c) ->
        c' = withA (Double.quotient alpha 100) c).
Proof.
  intros Hcur Htyped. unfold currentColor in Hcur.
  pose proof (proj1 (readColor_object _ _ _ _) Hcur) as Hobj.
  unfold handleAlphaSliderChange. rewrite Hcur. cbn [bind].
  destruct Htyped as [(-> & str & ->)|(-> & lv & c & -> & Hlv)].
  - change (String.eqb COLOR_CODE.HEX COLOR_CODE.RGBA) with false. cbn [negb readSlot bind].
    assert (convertColor (Tag.lastValidColor st) COLOR_CODE.RGBA (VString str) COLOR_CODE.RGBA
            = Normal (VRgba (toRgb (tinycolor (VString str))))) as -> by reflexivity.
    cbn [bind storeValue]. unfold alloc.
    set (hp0 := <[Tag.color st := ColorObject COLOR_CODE.RGBA (SString str)]> (Tag.heap st)).
    set (l := fresh (dom hp0)).
    assert (hp0 !! l = None) as Hfresh by apply not_elem_of_dom, is_fresh.
    assert (l <> Tag.color st) as Hl.
    { intros E. rewrite E in Hfresh. unfold hp0 in Hfresh.
      rewrite lookup_insert_eq in Hfresh. discriminate. }
    assert (Tag.heap st !! l = None) as Hold.
    { unfold hp0 in Hfresh. now rewrite lookup_insert_ne in Hfresh by congruence. }
    cbn [bind]. unfold assignChannel.
    rewrite lookup_insert_ne by congruence. rewrite lookup_insert_eq. cbn [bind].
    set (c' := withA (Double.quotient alpha 100) (toRgb (tinycolor (VString str)))).
    set (hp2 := <[l := RgbaObject c']> _).
    assert (hp2 !! Tag.color st = Some (ColorObject COLOR_CODE.RGBA (SRef l))) as Hcol.
    { unfold hp2. rewrite lookup_insert_ne by congruence. apply lookup_insert_eq. }
    assert (hp2 !! l = Some (RgbaObject c')) as Hval by apply lookup_insert_eq.
    exists (Tag.setHeap hp2 st), (Emitted.make (Tag.color st) (Opts.hsv (Tag.opts st))), l, c'.
    split; [reflexivity|]. split; [reflexivity|]. split; [reflexivity|].
    split; [apply readColor_object; exact Hcol|]. split; [exact Hval|].
    split; [right; split; [reflexivity|]; eauto|]. split; [reflexivity|].
    intros c Hc. congruence.
  - rewrite String.eqb_refl. cbn [negb bind]. unfold assignChannel. rewrite Hlv. cbn [bind].
    assert (Tag.color st <> lv) as Hne by (intros E; rewrite E in Hobj; congruence).
    set (c' := withA (Double.quotient alpha 100) c).
    set (hp2 := <[lv := RgbaObject c']> (Tag.heap st)).
    exists (Tag.setHeap hp2 st), (Emitted.make (Tag.color st) (Opts.hsv (Tag.opts st))), lv, c'.
    split; [reflexivity|]. split; [reflexivity|]. split; [reflexivity|].
    assert (hp2 !! lv = Some (RgbaObject c')) as Hval by apply lookup_insert_eq.
    split.
    { apply readColor_object. unfold hp2. cbn [Tag.setHeap Tag.heap Tag.color].
      now rewrite lookup_insert_ne by congruence. }
    split; [exact Hval|]. split; [right; split; [reflexivity|]; eauto|].
    split; [reflexivity|]. intros c0 Hc0. rewrite Hlv in Hc0. injection Hc0 as <-.
    reflexivity.
Qed.



End MoreHandlerFacts.

Section CycleFacts.
Context `{TinyColor}.

(** *** The format cycler on well-typed states *)

(** The handler once the loop has stopped at [index']. *)
Lemma tap_emission (st : Tag.t) (fuel : nat) (format : string) (sl : slot)
    (m : gmap string bool) (index index' : nat) :
  currentColor st = Normal (format, sl) -> wellTyped (Tag.heap st) format sl ->
  indexOf order format = Some index ->
  readMap (Tag.heap st) (Tag.selectableColorCode st) = Normal m ->
  cycleIndex fuel m index = Some index' ->
  order !!! index' = COLOR_CODE.HEX \/ order !!! index' = COLOR_CODE.RGBA ->
  exists st' e,
    handleColorChangeButtonTap fuel st = Some (Normal (st', e))
    /\ Emitted.hsv e = None
    /\ freshEmission st st' e (order !!! index')
    /\ Tag.latestValidHue st' = Tag.latestValidHue st
    /\ Tag.isCatcherActive st' = Tag.isCatcherActive st.
Proof.
  intros Hcur Htyped Hidx Hmap Hloop Hformat'.
  unfold handleColorChangeButtonTap, alloc.
  set (l := fresh (dom (Tag.heap st))).
  assert (Tag.heap st !! l = None) as Hfresh by apply not_elem_of_dom, is_fresh.
  rewrite Hcur, Hidx, Hmap, Hloop.
  destruct (wellTyped_readSlot _ _ _ Htyped) as (value & -> & Hshape). cbn [bind].
  destruct (sourceColor_total (Tag.lastValidColor st) format value Hshape) as [obj Hobj].
  unfold convertColor. rewrite Hobj. cbn [bind].
  set (format' := order !!! index') in *.
  set (hp0 := <[l := ColorObject COLOR_CODE.HEX (SString EmptyString)]> (Tag.heap st)).
  assert (extends (Tag.heap st) hp0) as Hext0 by now apply extends_insert_fresh.
  destruct Hformat' as [E|E]; rewrite E.
  - change (exportColor obj COLOR_CODE.HEX) with (VString (toHexString obj)).
    cbn [storeValue].
    do 2 eexists. split; [reflexivity|]. split; [reflexivity|].
    split; [|split; reflexivity].
    unfold freshEmission. cbn [Tag.setHeap Tag.heap Tag.color Tag.selectableColorCode
                              Tag.lastValidColor Tag.opts Emitted.color].
    split; [assumption|]. split.
    { intros l' o Hl'.
      assert (l' <> l) by (intros ->; congruence).
      rewrite lookup_insert_ne by congruence. now apply Hext0. }
    split; [|repeat split].
    eexists. split; [apply lookup_insert_eq|]. left. eauto.
  - change (exportColor obj COLOR_CODE.RGBA) with (VRgba (toRgb obj)).
    cbn [storeValue]. unfold alloc.
    set (l1 := fresh (dom hp0)).
    assert (hp0 !! l1 = None) as Hfresh1 by apply not_elem_of_dom, is_fresh.
    assert (l1 <> l) as Hne.
    { intros E'. rewrite E' in Hfresh1. unfold hp0 in Hfresh1.
      rewrite lookup_insert_eq in Hfresh1. discriminate. }
    do 2 eexists. split; [reflexivity|]. split; [reflexivity|].
    split; [|split; reflexivity].
    unfold freshEmission. cbn [Tag.setHeap Tag.heap Tag.color Tag.selectableColorCode
                              Tag.lastValidColor Tag.opts Emitted.color].
    split; [assumption|]. split.
    { intros l' o Hl'.
      assert (l' <> l) by (intros ->; congruence).
      assert (l' <> l1) by (intros ->; apply Hext0 in Hl'; congruence).
      rewrite !lookup_insert_ne by congruence. now apply Hext0. }
    split; [|repeat split].
    eexists. split; [apply lookup_insert_eq|]. right. split; [reflexivity|].
    exists l1, (toRgb obj). split; [reflexivity|].
    rewrite lookup_insert_ne by congruence. apply lookup_insert_eq.
Qed.

(** X13: with both formats selectable a tap on a well-typed colour
    stops after one iteration and emits a new colour of the other format:
    RGBA from HEX and HEX from RGBA. *)
Theorem X13_tap_toggles (st : Tag.t) (fuel : nat) (format : string) (sl : slot)
    (m : gmap string bool) :
  currentColor st = Normal (format, sl) -> wellTyped (Tag.heap st) format sl ->
  readMap (Tag.heap st) (Tag.selectableColorCode st) = Normal m ->
  selectable m COLOR_CODE.HEX = true -> selectable m COLOR_CODE.RGBA = true ->
  (1 <= fuel)%nat ->
  exists st' e,
    handleColorChangeButtonTap fuel st = Some (Normal (st', e))
    /\ freshEmission st st' e
         (if String.eqb format COLOR_CODE.HEX then COLOR_CODE.RGBA else COLOR_CODE.HEX).
Proof.
  intros Hcur Htyped Hmap Hhex Hrgba Hfuel.
  destruct fuel as [|fuel]; [lia|].
  destruct (wellTyped_format _ _ _ Htyped) as [->| ->].
  - destruct (tap_emission st (S fuel) COLOR_CODE.HEX sl m 0 1 Hcur Htyped eq_refl Hmap)
      as (st' & e & Hrun & _ & Hfresh & _).
    + cbn [cycleIndex].
      change (selectable m (order !!! nextIndex 0)) with (selectable m COLOR_CODE.RGBA).
      now rewrite Hrgba.
    + now right.
    + exists st', e. split; [exact Hrun|exact Hfresh].
  - destruct (tap_emission st (S fuel) COLOR_CODE.RGBA sl m 1 0 Hcur Htyped eq_refl Hmap)
      as (st' & e & Hrun & _ & Hfresh & _).
    + cbn [cycleIndex].
      change (selectable m (order !!! nextIndex 1)) with (selectable m COLOR_CODE.HEX).
      now rewrite Hhex.
    + now left.
    + exists st', e. split; [exact Hrun|exact Hfresh].
Qed.

(** X14: the two ways around the loop.  A current format outside the
    priority order skips the loop: the handler emits the default colour
    [{format: HEX, value: ''}] for every bound, whatever is selectable.
    A current format inside the order with neither format selectable
    never leaves the loop. *)
Theorem X14_tap_without_selectable (st : Tag.t) (format : string) (sl : slot) :
  currentColor st = Normal (format, sl) ->
  (indexOf order format = None ->
   exists st' e,
     (forall fuel, handleColorChangeButtonTap fuel st = Some (Normal (st', e)))
     /\ Tag.heap st !! Emitted.color e = None
     /\ Tag.heap st' = <[Emitted.color e := ColorObject COLOR_CODE.HEX (SString EmptyString)]>
                         (Tag.heap st))
  /\ (forall (m : gmap string bool) (index : nat),
      indexOf order format = Some index ->
      readMap (Tag.heap st) (Tag.selectableColorCode st) = Normal m ->
      selectable m COLOR_CODE.HEX = false -> selectable m COLOR_CODE.RGBA = false ->
      forall fuel, handleColorChangeButtonTap fuel st = None).
Proof.
  intros Hcur. split.
  - intros Hidx. do 2 eexists. split; [|split].
    + intros fuel. unfold handleColorChangeButtonTap, alloc. rewrite Hcur, Hidx. reflexivity.
    + cbn [Emitted.color]. apply not_elem_of_dom, is_fresh.
    + reflexivity.
  - intros m index Hidx Hmap Hhex Hrgba fuel.
    unfold handleColorChangeButtonTap, alloc. rewrite Hcur, Hidx, Hmap.
    rewrite (cycleIndex_diverges m fuel index Hhex Hrgba); [reflexivity|].
    destruct (indexOf_order _ _ Hidx) as [[-> _]|[-> _]]; lia.
Qed.

(** *** Typing into the hex field *)

(** X15: the hex field.  An input that matches the typing pattern is
    emitted as a new colour of the current format, with [#] in front when
    it is a committed hex, and nothing else changes; an input that does
    not match it emits the value of [opts.color] as it is, and throws when
    the host supplied no colour. *)
Theorem X15_handleInputHexInput (st : Tag.t) (raw format : string) (sl : slot) :
  currentColor st = Normal (format, sl) ->
  (isTypingHex raw = true ->
   exists st' e,
     handleInputHexInput st raw = Normal (st', e)
     /\ Tag.heap st !! Emitted.color e = None
     /\ Tag.heap st'
        = <[Emitted.color e := ColorObject format
              (SString (if isHex raw then concatenatePoundKey raw else raw))]> (Tag.heap st)
     /\ Emitted.hsv e = None)
  /\ (isTypingHex raw = false -> Opts.color (Tag.opts st) = None ->
      handleInputHexInput st raw = TypeError)
  /\ (forall (l : positive) (format0 : string) (sl0 : slot),
      isTypingHex raw = false -> Opts.color (Tag.opts st) = Some l ->
      Tag.heap st !! l = Some (ColorObject format0 sl0) ->
      exists st' e,
        handleInputHexInput st raw = Normal (st', e)
        /\ Tag.heap st !! Emitted.color e = None
        /\ Tag.heap st' = <[Emitted.color e := ColorObject format sl0]> (Tag.heap st)).
Proof.
  intros Hcur.
  assert (Tag.heap st !! fresh (dom (Tag.heap st)) = None) as Hfresh
    by apply not_elem_of_dom, is_fresh.
  split; [|split].
  - intros Ht. unfold handleInputHexInput. rewrite normalizeHexValue_cases, Ht.
    destruct (isHex raw); cbn [bind]; rewrite Hcur; cbn [bind]; unfold alloc;
      do 2 eexists; (split; [reflexivity|]); repeat split; assumption.
  - intros Ht Hopts. unfold handleInputHexInput. rewrite normalizeHexValue_cases, Ht, Hopts.
    destruct (isHex raw) eqn:Hh; [|reflexivity].
    apply isHex_isTypingHex in Hh. congruence.
  - intros l format0 sl0 Ht Hopts Hl.
    unfold handleInputHexInput. rewrite normalizeHexValue_cases, Ht, Hopts.
    assert (isHex raw = false) as ->.
    { destruct (isHex raw) eqn:Hh; [|reflexivity]. apply isHex_isTypingHex in Hh. congruence. }
    rewrite (proj2 (readColor_object _ _ _ _) Hl). cbn [bind]. rewrite Hcur. cbn [bind].
    unfold alloc. do 2 eexists. split; [reflexivity|]. split; [assumption|reflexivity].
Qed.

End CycleFacts.

Section LifeFacts.
Context `{TinyColor}.
Variable numberToString : Q -> string.

(** *** What the steps write *)

Ltac run_cases H :=
  repeat first
    [ discriminate H
    | match type of H with
      | match ?x with _ => _ end = _ => destruct x eqn:?
      | bind ?c _ = _ => destruct c eqn:?; cbn [bind] in H
      end ].

Lemma pointerColorChange_frame (st st' : Tag.t) (rect : Rect.t) (x y : Q) (e : Emitted.t) :
  pointerColorChange st rect x y = Normal (st', e) ->
  Tag.lastValidColor st' = Tag.lastValidColor st /\ Tag.opts st' = Tag.opts st
  /\ Tag.color st' = Tag.color st
  /\ Tag.selectableColorCode st' = Tag.selectableColorCode st.
Proof.
  unfold pointerColorChange. intros Hrun. run_cases Hrun.
  injection Hrun as <- <-.
  match goal with |- context [negb ?b] => destruct b end; repeat split.
Qed.

(** A handler of the user interface writes none of [lastValidColor],
    [opts], [this.color] and [selectableColorCode]. *)
Lemma handler_frame (st st' : Tag.t) :
  step st st' ->
  (exists o, update o st = Normal st')
  \/ (Tag.lastValidColor st' = Tag.lastValidColor st /\ Tag.opts st' = Tag.opts st
      /\ Tag.color st' = Tag.color st
      /\ Tag.selectableColorCode st' = Tag.selectableColorCode st).
Proof.
  intros Hstep.
  destruct Hstep;
    try match goal with Hrun : _ = _ |- _ => rename Hrun into Hrun0 end.
  - right. repeat split.
  - left. eauto.
  - right. unfold handleCanvasMouseDown in Hrun0.
    apply pointerColorChange_frame in Hrun0. exact Hrun0.
  - right. unfold handleCatcherMouseMove in Hrun0.
    destruct (negb (Tag.isCatcherActive st)).
    + injection Hrun0 as <- _. repeat split.
    + match type of Hrun0 with bind ?p _ = _ => destruct p as [[st1 e1]|] eqn:Hp end;
        cbn [bind] in Hrun0; [|discriminate].
      injection Hrun0 as <- _. now apply pointerColorChange_frame in Hp.
  - right. unfold handleCatcherMouseUp in Hrun0.
    apply pointerColorChange_frame in Hrun0. exact Hrun0.
  - right. unfold handleHueSliderChange in Hrun0. run_cases Hrun0.
    injection Hrun0 as <- <-. repeat split.
  - right. unfold handleColorChangeButtonTap, alloc in Hrun0.
    destruct (currentColor st) as [[format sl]|]; [|discriminate].
    destruct (indexOf order format) as [index|].
    + destruct (readMap _ _) as [m|]; [|discriminate].
      destruct (cycleIndex _ _ _) as [index'|]; [|discriminate].
      injection Hrun0 as Hrun0. run_cases Hrun0.
      injection Hrun0 as <- <-. repeat split.
    + injection Hrun0 as <- <-. repeat split.
  - right. unfold handleAlphaSliderChange in Hrun0. run_cases Hrun0;
      injection Hrun0 as <- <-; repeat split.
  - right. unfold handleInputRgbaRedInput, inputChannel in Hrun0. run_cases Hrun0;
      injection Hrun0 as <- <-; repeat split.
  - right. unfold handleInputRgbaGreenInput, inputChannel in Hrun0. run_cases Hrun0;
      injection Hrun0 as <- <-; repeat split.
  - right. unfold handleInputRgbaBlueInput, inputChannel in Hrun0. run_cases Hrun0;
      injection Hrun0 as <- <-; repeat split.
  - right. unfold handleInputAlphaInput, inputChannel in Hrun0. run_cases Hrun0;
      injection Hrun0 as <- <-; repeat split.
  - right. unfold handleInputHexInput in Hrun0. run_cases Hrun0;
      injection Hrun0 as <- <-; repeat split.
Qed.

(** What the update handler leaves behind. *)
Lemma update_result (o : Opts.t) (st st' : Tag.t) :
  update o st = Normal st' ->
  Tag.opts st' = o
  /\ Tag.latestValidHue st' = Tag.latestValidHue st
  /\ Tag.isCatcherActive st' = Tag.isCatcherActive st
  /\ exists format sl,
       currentColor st' = Normal (format, sl)
       /\ (format <> COLOR_CODE.HEX -> Tag.lastValidColor st' = Tag.lastValidColor st)
       /\ (format = COLOR_CODE.HEX ->
           exists str, sl = SString str
                       /\ Tag.lastValidColor st'
                          = if isHex str then str else Tag.lastValidColor st).
Proof.
  unfold update. intros Hrun.
  destruct (selectableOrDefault (Tag.heap st) o) as [sel hp1].
  destruct (colorOrDefault hp1 o) as [col hp2].
  destruct (readColor hp2 col) as [[format sl]|] eqn:Hcol; cbn [bind] in Hrun; [|discriminate].
  match type of Hrun with bind ?c _ = _ => destruct c as [lastValid|] eqn:Hlast end;
    cbn [bind] in Hrun; [|discriminate].
  unfold updateSpectrum in Hrun.
  destruct (getHsv _) as [hsv|]; cbn [bind] in Hrun; [|discriminate].
  destruct (convertColor _ _ _ _); cbn [bind] in Hrun; [|discriminate].
  injection Hrun as <-. cbn [Tag.opts Tag.latestValidHue Tag.isCatcherActive Tag.lastValidColor].
  repeat split. exists format, sl. split; [exact Hcol|].
  destruct (String.eqb_spec format COLOR_CODE.HEX) as [E|E].
  - split; [congruence|]. intros _. destruct sl; try discriminate.
    injection Hlast as <-. eauto.
  - split; [intros _; congruence|congruence].
Qed.

(** X16: at every state the component can reach -- from its
    initialisation, through updates, handlers and rewrites of the heap
    by the host in any order -- [lastValidColor] is a committed hex. *)
Theorem X16_lastValidColor_committed (st : Tag.t) :
  reachable st -> isHex (Tag.lastValidColor st) = true.
Proof.
  induction 1 as [hp o st Hinit | st st' Hreach IH Hstep].
  - unfold init in Hinit.
    destruct (selectableOrDefault hp o) as [sel hp1].
    destruct (colorOrDefault hp1 o) as [col hp2].
    destruct (readColor hp2 col) as [[format sl]|]; cbn [bind] in Hinit; [|discriminate].
    destruct (readMap hp2 sel) as [m|]; cbn [bind] in Hinit; [|discriminate].
    injection Hinit as <-. reflexivity.
  - destruct (handler_frame st st' Hstep) as [[o Hupd]|(-> & _)]; [|exact IH].
    destruct (update_result o st st' Hupd) as (_ & _ & _ & format & sl & _ & Hother & Hhex).
    destruct (String.eqb_spec format COLOR_CODE.HEX) as [E|E].
    + destruct (Hhex E) as (str & _ & ->). destruct (isHex str) eqn:Hstr; assumption.
    + now rewrite (Hother E).
Qed.

(** X17: while the user types.  After an update with a committed hex
    [c], an update with a string [v] that is not a committed hex keeps
    [lastValidColor = c]: the hsv of the component, hence the spectrum
    and its knob, stay those of [c], and the style shown is [c] as the
    host wrote it. *)
Theorem X17_typing_keeps_last_colour (o1 o2 : Opts.t) (st0 st1 st2 : Tag.t) (c v : string) :
  update o1 st0 = Normal st1 -> Opts.hsv o1 = None ->
  currentColor st1 = Normal (COLOR_CODE.HEX, SString c) -> isHex c = true ->
  update o2 st1 = Normal st2 -> Opts.hsv o2 = None ->
  currentColor st2 = Normal (COLOR_CODE.HEX, SString v) -> isHex v = false ->
  Tag.lastValidColor st2 = c
  /\ getHsv st2 = getHsv st1
  /\ getColorStyle numberToString st1 = Normal (concatenatePoundKey c)
  /\ getColorStyle numberToString st2 = Normal c.
Proof.
  intros Hupd1 Hhsv1 Hcur1 Hc Hupd2 Hhsv2 Hcur2 Hv.
  destruct (update_result o1 st0 st1 Hupd1) as (Ho1 & _ & _ & f1 & sl1 & Hc1 & _ & Hlast1).
  destruct (update_result o2 st1 st2 Hupd2) as (Ho2 & _ & _ & f2 & sl2 & Hc2 & _ & Hlast2).
  rewrite Hcur1 in Hc1. injection Hc1 as <- <-.
  rewrite Hcur2 in Hc2. injection Hc2 as <- <-.
  destruct (Hlast1 eq_refl) as (c' & [= <-] & Hl1). rewrite Hc in Hl1.
  destruct (Hlast2 eq_refl) as (v' & [= <-] & Hl2). rewrite Hv, Hl1 in Hl2.
  split; [exact Hl2|]. split; [|split].
  - unfold getHsv. rewrite Ho1, Ho2, Hhsv1, Hhsv2, Hcur1, Hcur2. cbn [bind readSlot].
    rewrite Hl1, Hl2. unfold convertToHsv.
    rewrite !convertColor_HEX_string, Hc, Hv. reflexivity.
  - unfold getColorStyle. rewrite Hcur1. cbn [bind].
    change (String.eqb COLOR_CODE.HEX COLOR_CODE.HEX) with true. cbn iota. now rewrite Hc.
  - unfold getColorStyle. rewrite Hcur2. cbn [bind].
    change (String.eqb COLOR_CODE.HEX COLOR_CODE.HEX) with true. cbn iota.
    now rewrite Hv, Hl2.
Qed.

(** X18: for a HEX colour the style is always a committed hex when
    [lastValidColor] is one (as it is at every reachable state): the
    value with [#] in front when the value is a committed hex, and
    [lastValidColor] otherwise; the text of the read-only field is the
    value with [#] in front, valid or not. *)
Theorem X18_hex_display (st : Tag.t) (v : string) :
  currentColor st = Normal (COLOR_CODE.HEX, SString v) ->
  isHex (Tag.lastValidColor st) = true ->
  exists style,
    getColorStyle numberToString st = Normal style
    /\ isHex style = true
    /\ (isHex v = true -> style = String "#"%char (dropPoundKey v))
    /\ (isHex v = false -> style = Tag.lastValidColor st)
    /\ getDummyValue numberToString st = Normal (String "#"%char (dropPoundKey v)).
Proof.
  intros Hcur Hlast.
  assert (concatenatePoundKey v = String "#"%char (dropPoundKey v)) as Hpound.
  { destruct (concatenatePoundKey_cases v) as [(rest & -> & E)|[Hd E]]; rewrite E;
      [reflexivity | now rewrite Hd]. }
  unfold getColorStyle, getDummyValue. rewrite Hcur. cbn [bind].
  change (String.eqb COLOR_CODE.HEX COLOR_CODE.HEX) with true. cbn iota.
  eexists. split; [reflexivity|]. rewrite Hpound.
  destruct (isHex v) eqn:Hv.
  - repeat split; try reflexivity; try discriminate. unfold isHex in *. exact Hv.
  - repeat split; try reflexivity; try discriminate. exact Hlast.
Qed.

(** X19: the initialisation.  The component starts with
    [lastValidColor = '#000000'], [latestValidHue = 0] and no drag in
    progress; the format of its colour is selectable; without a colour from
    the host the colour is [{format: HEX, value: ''}], and with one it is
    the object of the host itself. *)
Theorem X19_init (hp : gmap positive object) (o : Opts.t) (st : Tag.t) :
  init hp o = Normal st ->
  Tag.lastValidColor st = "#000000"%string
  /\ Tag.latestValidHue st = 0
  /\ Tag.isCatcherActive st = false
  /\ Tag.opts st = o
  /\ (exists format sl m,
        currentColor st = Normal (format, sl)
        /\ readMap (Tag.heap st) (Tag.selectableColorCode st) = Normal m
        /\ selectable m format = true)
  /\ (forall l, Opts.color o = Some l -> Tag.color st = l)
  /\ (Opts.color o = None ->
      currentColor st = Normal (COLOR_CODE.HEX, SString EmptyString)).
Proof.
  intros Hinit. pose proof (init_selectable hp o st Hinit) as Hsel.
  unfold init in Hinit.
  destruct (selectableOrDefault hp o) as [sel hp1] eqn:Hs.
  destruct (colorOrDefault hp1 o) as [col hp2] eqn:Hc.
  destruct (readColor hp2 col) as [[format sl]|] eqn:Hcol; cbn [bind] in Hinit; [|discriminate].
  destruct (readMap hp2 sel) as [m|] eqn:Hmap; cbn [bind] in Hinit; [|discriminate].
  injection Hinit as <-.
  cbn [Tag.lastValidColor Tag.latestValidHue Tag.isCatcherActive Tag.opts Tag.color].
  repeat split; try exact Hsel.
  - intros l Hl. unfold colorOrDefault in Hc. rewrite Hl in Hc. congruence.
  - intros Hnone. unfold colorOrDefault in Hc. rewrite Hnone in Hc.
    unfold alloc in Hc. injection Hc as <- <-.
    unfold readColor in Hcol. rewrite lookup_insert_eq in Hcol. injection Hcol as <- <-.
    unfold currentColor, readColor. cbn [Tag.heap Tag.color].
    destruct (negb _).
    + rewrite lookup_insert_ne; [now rewrite lookup_insert_eq|].
      intros E. unfold readMap in Hmap. rewrite E in Hmap.
      rewrite lookup_insert_eq in Hmap. discriminate.
    + now rewrite lookup_insert_eq.
Qed.

End LifeFacts.

(** ** The touch binder *)

Section TouchFacts.
Variable Math_pow2 : Double.t -> Double.t.

(** On whole distances of at most 10 pixels on each axis, whose squares
    are whole numbers, the test of the listener is the test on the
    squares. *)
Lemma outOfRange_whole (dx dy : Z) :
  (forall d : Z, (-10 <= d <= 10)%Z -> Math_pow2 (Double.ofZ d) = Double.ofZ (d * d)) ->
  (-10 <= dx <= 10)%Z -> (-10 <= dy <= 10)%Z ->
  Touch.outOfRange Math_pow2 (Double.ofZ dx) (Double.ofZ dy)
  = (100 <=? dx * dx + dy * dy)%Z.
Proof.
  intros Hsquare Hx Hy. unfold Touch.outOfRange.
  rewrite (Hsquare dx Hx), (Hsquare dy Hy).
  set (check := fun dx dy : Z =>
         Bool.eqb (Double.leb Touch.TOUCH_ALLOW_RANGE
                     (Double.sqrt (Double.add (Double.ofZ (dx * dx)) (Double.ofZ (dy * dy)))))
                  (100 <=? dx * dx + dy * dy)%Z).
  assert (forallb (fun dx => forallb (check dx) wholeDistances) wholeDistances = true) as Hall
    by (vm_compute; reflexivity).
  assert (forall d : Z, (-10 <= d <= 10)%Z -> In d wholeDistances) as Hin.
  { intros d Hd. unfold wholeDistances.
    replace d with (Z.of_nat (Z.to_nat (d + 10)) - 10)%Z by lia.
    apply (in_map (fun n => Z.of_nat n - 10)%Z), in_seq. lia. }
  pose proof (proj1 (forallb_forall _ _) Hall dx (Hin dx Hx)) as Hrow.
  pose proof (proj1 (forallb_forall _ _) Hrow dy (Hin dy Hy)) as Hcell.
  now apply Bool.eqb_prop in Hcell.
Qed.

Lemma touchMove_spec (g : Touch.gesture) (p : Double.t * Double.t) :
  Touch.touchX (Touch.touchMove Math_pow2 g (fst p) (snd p)) = Touch.touchX g
  /\ Touch.touchY (Touch.touchMove Math_pow2 g (fst p) (snd p)) = Touch.touchY g
  /\ (Touch.hover (Touch.touchMove Math_pow2 g (fst p) (snd p)) = true
      <-> Touch.hover g = true
          /\ withinRange Math_pow2 (Touch.touchX g) (Touch.touchY g) p).
Proof.
  unfold Touch.touchMove, withinRange.
  destruct (Touch.hover g) eqn:Hg; cbn [negb].
  - destruct (Touch.outOfRange _ _ _) eqn:Hout.
    + cbn [Touch.touchX Touch.touchY Touch.hover].
      split; [reflexivity|]. split; [reflexivity|]. split; [discriminate|].
      intros [_ Hin]. congruence.
    + split; [reflexivity|]. split; [reflexivity|]. rewrite Hg.
      split; [|reflexivity]. intros _. split; reflexivity.
  - split; [reflexivity|]. split; [reflexivity|]. rewrite Hg.
    split; [discriminate|]. now intros [? _].
Qed.

(** The moves after a press keep the point of the press, and the class
    survives exactly the moves that stay within range. *)
Lemma moves_from (path : list (Double.t * Double.t)) (g : Touch.gesture) :
  Touch.touchX (fold_left (fun g p => Touch.touchMove Math_pow2 g (fst p) (snd p)) path g)
  = Touch.touchX g
  /\ Touch.touchY (fold_left (fun g p => Touch.touchMove Math_pow2 g (fst p) (snd p)) path g)
     = Touch.touchY g
  /\ (Touch.hover (fold_left (fun g p => Touch.touchMove Math_pow2 g (fst p) (snd p)) path g)
      = true
      <-> Touch.hover g = true
          /\ Forall (withinRange Math_pow2 (Touch.touchX g) (Touch.touchY g)) path).
Proof.
  revert g. induction path as [|p path IH]; intros g; cbn [fold_left].
  - split; [reflexivity|]. split; [reflexivity|].
    split; [intros Hh; split; [assumption|constructor] | now intros [? _]].
  - destruct (IH (Touch.touchMove Math_pow2 g (fst p) (snd p))) as (Hx & Hy & Hhover).
    destruct (touchMove_spec g p) as (Ex & Ey & Eh).
    rewrite Hx, Hy, Hhover, Ex, Ey, Eh.
    split; [reflexivity|]. split; [reflexivity|]. split.
    + intros [[Hg Hp] Hall]. split; [assumption|]. now constructor.
    + intros [Hg Hall]. inversion Hall; subst. auto.
Qed.

End TouchFacts.

Lemma substring_all (s : string) : String.substring 0 (String.length s) s = s.
Proof. induction s as [|c rest IH]; [reflexivity|]. cbn. now rewrite IH. Qed.

(** X20: a tap.  After a press and any sequence of moves the release
    calls the handler named by the attribute [ontap] exactly when the
    listener of the moves took every move as within [TOUCH_ALLOW_RANGE] of
    the press -- a move out of range cancels the tap for good, even if
    the pointer comes back -- and the tag has a handler of that name; the
    class [hover] is removed in any case.  A move without a press does
    nothing.  The range is tested on the doubles: for whole distances of
    at most 10 pixels on each axis, whose squares [Math.pow] gives
    exactly, a move is out of range exactly when the sum of the squares
    is at least 100. *)
Theorem X20_tap (Math_pow2 : Double.t -> Double.t) (pageX pageY : Double.t)
    (path : list (Double.t * Double.t)) (handlerName : string) (hasHandler : string -> bool) :
  (exists g called,
     Touch.touchEnd (Touch.press Math_pow2 pageX pageY path) (Some handlerName) hasHandler
     = Normal (g, called)
     /\ Touch.hover g = false
     /\ (called = Some (Touch.stripParent handlerName) \/ called = None)
     /\ (called <> None
         <-> Forall (withinRange Math_pow2 pageX pageY) path
             /\ Touch.stripParent handlerName <> EmptyString
             /\ hasHandler (Touch.stripParent handlerName) = true))
  /\ fold_left (fun g p => Touch.touchMove Math_pow2 g (fst p) (snd p)) path Touch.idle
     = Touch.idle
  /\ ((forall d : Z, (-10 <= d <= 10)%Z -> Math_pow2 (Double.ofZ d) = Double.ofZ (d * d)) ->
      forall dx dy : Z,
        (-10 <= dx <= 10)%Z -> (-10 <= dy <= 10)%Z ->
        Touch.outOfRange Math_pow2 (Double.ofZ dx) (Double.ofZ dy)
        = (100 <=? dx * dx + dy * dy)%Z).
Proof.
  split.
  - destruct (moves_from Math_pow2 path (Touch.touchStart Touch.idle pageX pageY))
      as (_ & _ & Hhover).
    cbn [Touch.touchStart Touch.touchX Touch.touchY Touch.hover] in Hhover.
    unfold Touch.touchEnd. fold (Touch.press Math_pow2 pageX pageY path) in Hhover.
    destruct (Touch.hover (Touch.press Math_pow2 pageX pageY path)) eqn:Hh.
    + assert (Forall (withinRange Math_pow2 pageX pageY) path) as Hall by now apply Hhover.
      do 2 eexists. split; [reflexivity|]. split; [reflexivity|].
      destruct (String.eqb_spec (Touch.stripParent handlerName) EmptyString) as [E|E];
        cbn [negb andb].
      * split; [now right|]. split; [congruence|]. intros (_ & Hne & _). congruence.
      * destruct (hasHandler (Touch.stripParent handlerName)) eqn:Hhas.
        -- split; [now left|]. split; [auto|discriminate].
        -- split; [now right|]. split; [congruence|]. intros (_ & _ & [=]).
    + do 2 eexists. split; [reflexivity|]. split; [reflexivity|].
      split; [now right|]. split; [congruence|].
      intros (Hall & _). assert (false = true) as [=]. apply Hhover. auto.
  - split.
    + induction path as [|p path IH]; [reflexivity|]. cbn [fold_left]. exact IH.
    + intros Hsquare dx dy. now apply outOfRange_whole.
Qed.

(** X21: the name of the handler.  A leading [parent.] is removed,
    once; any other name is taken as it is; and on an element without the
    attribute [ontap] a release after a press throws, which leaves the
    class [hover] on the element (a release without a press does not
    read the attribute). *)
Theorem X21_handler_name (name : string) (g : Touch.gesture) (hasHandler : string -> bool) :
  Touch.stripParent ("parent." ++ name) = name
  /\ (String.prefix "parent." name = false -> Touch.stripParent name = name)
  /\ (Touch.hover g = true -> Touch.touchEnd g None hasHandler = TypeError)
  /\ (Touch.hover g = false ->
      Touch.touchEnd g None hasHandler
      = Normal (Touch.makeGesture false (Touch.touchX g) (Touch.touchY g), None)).
Proof.
  repeat split.
  - unfold Touch.stripParent.
    assert (String.prefix "parent." ("parent." ++ name) = true) as ->.
    { apply prefix_correct. destruct name; reflexivity. }
    assert (("parent." ++ name)%string
            = String "p" (String "a" (String "r" (String "e" (String "n" (String "t"
                (String "." name))))))) as -> by reflexivity.
    cbn [String.length Nat.sub String.substring]. rewrite Nat.sub_0_r. apply substring_all.
  - intros Hp. unfold Touch.stripParent. now rewrite Hp.
  - intros Hh. unfold Touch.touchEnd. now rewrite Hh.
  - intros Hh. unfold Touch.touchEnd. now rewrite Hh.
Qed.

Section RegistryFacts.
Context {Target Listener : Type}.
Implicit Types (reg : Touch.registry Target Listener) (e : Touch.entry Target Listener).

(** *** The registry *)

Lemma eventIdOf_inj (n m : nat) : Touch.eventIdOf n = Touch.eventIdOf m -> n = m.
Proof.
  unfold Touch.eventIdOf. intros E.
  apply (inj (String.append "t_")) in E. now apply (inj pretty) in E.
Qed.

(** No id of the registry is the name of an inherited property. *)
Lemma eventIdOf_not_inherited (n : nat) : Touch.isInherited (Touch.eventIdOf n) = false.
Proof.
  unfold Touch.isInherited, Touch.eventIdOf.
  change ("t_" +:+ pretty n)%string with (String "t" (String "_" (pretty n))).
  reflexivity.
Qed.

(** An id at or above the counter is not in use. *)
Lemma issued_unused reg (n : nat) :
  Touch.issued reg -> (Touch.key reg <= n)%nat ->
  Touch.events reg !! Touch.eventIdOf n = None.
Proof.
  intros Hissued Hn.
  destruct (Touch.events reg !! Touch.eventIdOf n) as [e|] eqn:E; [|reflexivity].
  destruct (Hissued (Touch.eventIdOf n)) as (k & Hk & Heq); [rewrite E; eauto|].
  apply eventIdOf_inj in Heq. lia.
Qed.

Lemma issued_add reg e : Touch.issued reg -> Touch.issued (Touch.add reg e).1.2.
Proof.
  intros Hissued eventId. cbn [Touch.add fst snd Touch.events Touch.key].
  destruct (decide (eventId = Touch.eventIdOf (Touch.key reg))) as [->|Hne].
  - intros _. exists (Touch.key reg). split; [lia|reflexivity].
  - rewrite lookup_insert_ne by congruence. intros Hin.
    destruct (Hissued eventId Hin) as (k & Hk & ->). exists k. split; [lia|reflexivity].
Qed.

Lemma issued_remove reg reg' (eventId : string) call :
  Touch.issued reg -> Touch.remove reg eventId = Normal (reg', call) -> Touch.issued reg'.
Proof.
  intros Hissued. unfold Touch.remove.
  destruct (Touch.events reg !! eventId) as [e|] eqn:E.
  - intros [= <- _]. intros eventId'. cbn [Touch.events Touch.key].
    destruct (decide (eventId = eventId')) as [->|Hne].
    + rewrite lookup_delete_eq. now intros [? [=]].
    + rewrite lookup_delete_ne by assumption. apply Hissued.
  - destruct (Touch.isInherited eventId); [discriminate|]. now intros [= <- _].
Qed.

(** X22: the ids of the registry.  Starting from the empty registry,
    every id in use is [t_n] for an [n] below the counter, whatever is
    added and removed; so the id that [add] returns was not in use, and
    the listeners registered before keep their ids and entries. *)
Theorem X22_registry_ids reg e (eventId : string) :
  Touch.issued reg ->
  Touch.issued (Touch.empty (Target := Target) (Listener := Listener))
  /\ Touch.issued (Touch.add reg e).1.2
  /\ (forall reg' call, Touch.remove reg eventId = Normal (reg', call) -> Touch.issued reg')
  /\ Touch.events reg !! (Touch.add reg e).1.1 = None
  /\ Touch.events (Touch.add reg e).1.2 !! (Touch.add reg e).1.1 = Some e
  /\ (forall (other : string) (e' : Touch.entry Target Listener),
      Touch.events reg !! other = Some e' ->
      Touch.events (Touch.add reg e).1.2 !! other = Some e').
Proof.
  intros Hissued. split; [|split; [|split; [|split; [|split]]]].
  - intros other. cbn. rewrite lookup_empty. now intros [? [=]].
  - now apply issued_add.
  - intros reg' call. now apply issued_remove.
  - cbn [Touch.add fst]. now apply issued_unused.
  - cbn [Touch.add fst snd Touch.events]. apply lookup_insert_eq.
  - intros other e' Hother. cbn [Touch.add fst snd Touch.events].
    rewrite lookup_insert_ne; [assumption|].
    intros E. rewrite <- E in Hother.
    rewrite (issued_unused reg (Touch.key reg) Hissued (le_n _)) in Hother. discriminate.
Qed.

(** X23: removing the id that [add] returned detaches the listener
    with the very target, type, listener and capture flag it was attached
    with, and leaves the events as they were before the [add]; removing
    the same id again changes nothing and makes no call.  So does removing
    any id that is not in use, unless it is the name of a property that
    [events] inherits from [Object.prototype]: on such a name [remove]
    throws. *)
Theorem X23_registry_round_trip reg e :
  Touch.issued reg ->
  Touch.remove (Touch.add reg e).1.2 (Touch.add reg e).1.1
  = Normal (Touch.makeRegistry (Touch.events reg) (S (Touch.key reg)),
            Some (Touch.RemoveEventListener e))
  /\ Touch.remove (Touch.makeRegistry (Touch.events reg) (S (Touch.key reg)))
                  (Touch.add reg e).1.1
     = Normal (Touch.makeRegistry (Touch.events reg) (S (Touch.key reg)), None)
  /\ (forall eventId : string,
      Touch.events reg !! eventId = None ->
      Touch.remove reg eventId
      = if Touch.isInherited eventId then TypeError else Normal (reg, None)).
Proof.
  intros Hissued.
  pose proof (issued_unused reg (Touch.key reg) Hissued (le_n _)) as Hfresh.
  split; [|split].
  - unfold Touch.remove. cbn [Touch.add fst snd Touch.events Touch.key].
    rewrite lookup_insert_eq. now rewrite delete_insert_id.
  - unfold Touch.remove. cbn [Touch.add fst snd Touch.events Touch.key]. rewrite Hfresh.
    now rewrite eventIdOf_not_inherited.
  - intros eventId Hnone. unfold Touch.remove. now rewrite Hnone.
Qed.

End RegistryFacts.

Section BindFacts.

(** *** Binding and unbinding *)

Lemma hasSlash_app (s t : string) : hasSlash (s ++ t) = hasSlash s || hasSlash t.
Proof.
  induction s as [|c rest IH]; [reflexivity|].
  change (String c rest ++ t)%string with (String c (rest ++ t)).
  cbn [hasSlash]. now rewrite IH, orb_assoc.
Qed.

Lemma pretty_N_char_no_slash (x : N) : Ascii.eqb (pretty_N_char x) "/" = false.
Proof. unfold pretty_N_char. repeat case_match; reflexivity. Qed.

Lemma pretty_N_go_no_slash (x : N) (s : string) :
  hasSlash s = false -> hasSlash (pretty_N_go x s) = false.
Proof.
  revert s. induction (N.lt_wf_0 x) as [x _ IH]; intros s Hs.
  destruct (decide (x = 0)%N) as [->|Hx]; [now rewrite pretty_N_go_0|].
  rewrite pretty_N_go_step by lia. apply IH; [apply N.div_lt; lia|].
  cbn [hasSlash]. now rewrite pretty_N_char_no_slash.
Qed.

Lemma eventIdOf_no_slash (n : nat) : hasSlash (Touch.eventIdOf n) = false.
Proof.
  unfold Touch.eventIdOf. rewrite hasSlash_app.
  change (hasSlash "t_") with false. cbn [orb].
  unfold pretty, pretty_nat, pretty, pretty_N.
  destruct (decide _); [reflexivity|]. now apply pretty_N_go_no_slash.
Qed.

(** [split] on a string without separator, and on one that starts with
    such a string. *)
Lemma split_no_slash (s : string) : hasSlash s = false -> Touch.split "/" s = [s].
Proof.
  induction s as [|c rest IH]; [reflexivity|].
  cbn [hasSlash Touch.split]. intros [Hc Hrest]%orb_false_elim.
  now rewrite Hc, IH.
Qed.

Lemma split_first (s t : string) :
  hasSlash s = false -> Touch.split "/" (s ++ String "/" t) = s :: Touch.split "/" t.
Proof.
  induction s as [|c rest IH]; [reflexivity|].
  change (String c rest ++ String "/" t)%string with (String c (rest ++ String "/" t)).
  cbn [hasSlash Touch.split]. intros [Hc Hrest]%orb_false_elim.
  now rewrite Hc, IH.
Qed.

Lemma bindElement_bound (isSupportTouch : bool) (pg : Touch.page) (elm : nat) :
  Touch.isBound (Touch.bindElement isSupportTouch pg elm) elm = true.
Proof.
  unfold Touch.bindElement.
  destruct (Touch.isBound pg elm) eqn:Hb; [assumption|].
  unfold Touch.isBound. cbn [Touch.add Touch.touchevents Touch.key].
  rewrite lookup_insert_eq. reflexivity.
Qed.

Lemma bindElement_keeps (isSupportTouch : bool) (pg : Touch.page) (elm other : nat) :
  Touch.isBound pg other = true ->
  Touch.isBound (Touch.bindElement isSupportTouch pg elm) other = true.
Proof.
  intros Hother. unfold Touch.bindElement.
  destruct (Touch.isBound pg elm) eqn:Hb; [assumption|].
  unfold Touch.isBound in *. cbn [Touch.add Touch.touchevents Touch.key].
  destruct (decide (elm = other)) as [->|Hne]; [congruence|].
  now rewrite lookup_insert_ne.
Qed.

Lemma bindAll_keeps (isSupportTouch : bool) (elms : list nat) (pg : Touch.page) (other : nat) :
  Touch.isBound pg other = true ->
  Touch.isBound (fold_left (Touch.bindElement isSupportTouch) elms pg) other = true.
Proof.
  revert pg. induction elms as [|elm elms IH]; intros pg Hother; [assumption|].
  cbn [fold_left]. apply IH. now apply bindElement_keeps.
Qed.

Lemma bindAll_bound (isSupportTouch : bool) (elms : list nat) (pg : Touch.page) :
  Forall (fun elm => Touch.isBound (fold_left (Touch.bindElement isSupportTouch) elms pg) elm
                     = true) elms.
Proof.
  revert pg. induction elms as [|elm elms IH]; intros pg; constructor.
  - cbn [fold_left]. apply bindAll_keeps, bindElement_bound.
  - cbn [fold_left]. apply IH.
Qed.

Lemma bindAll_noop (isSupportTouch : bool) (elms : list nat) (pg : Touch.page) :
  Forall (fun elm => Touch.isBound pg elm = true) elms ->
  fold_left (Touch.bindElement isSupportTouch) elms pg = pg.
Proof.
  induction 1 as [|elm elms Helm _ IH]; [reflexivity|].
  cbn [fold_left]. unfold Touch.bindElement at 2. rewrite Helm. exact IH.
Qed.

(** X24: binding is idempotent.  [bindTouchEvents] marks every element
    it binds, an element that is marked is skipped, and so binding the
    elements of a tag again -- [rebindTouchEvents] after a mount -- adds
    no listener to an element that already has its three. *)
Theorem X24_bind_idempotent (isSupportTouch : bool) (pg : Touch.page) (refs : Touch.refsTouch) :
  Touch.bindTouchEvents isSupportTouch (Touch.bindTouchEvents isSupportTouch pg refs) refs
  = Touch.bindTouchEvents isSupportTouch pg refs
  /\ Forall (fun elm => Touch.isBound (Touch.bindTouchEvents isSupportTouch pg refs) elm = true)
            (Touch.getTouchableElements refs).
Proof.
  unfold Touch.bindTouchEvents. split.
  - apply bindAll_noop, bindAll_bound.
  - apply bindAll_bound.
Qed.

(** X25: binding an element and unbinding it.  On a registry whose ids
    were all issued by [add], binding an unmarked element attaches the
    three listeners and unbinding detaches exactly these three, in the
    order start, move, end; the events of the registry are then what they
    were before, with the counter three further.  The mark stays on the
    element, so a later binding skips it. *)
Theorem X25_bind_unbind (isSupportTouch : bool) (pg : Touch.page) (elm : nat) :
  Touch.issued (Touch.listeners pg) -> Touch.isBound pg elm = false ->
  let bound := Touch.bindElement isSupportTouch pg elm in
  Touch.calls bound
  = Touch.AddEventListener (endEntry isSupportTouch elm)
      :: Touch.AddEventListener (moveEntry isSupportTouch elm)
      :: Touch.AddEventListener (startEntry isSupportTouch elm) :: Touch.calls pg
  /\ exists unbound,
       Touch.unbindElement bound elm = Normal unbound
       /\ Touch.calls unbound
          = Touch.RemoveEventListener (endEntry isSupportTouch elm)
              :: Touch.RemoveEventListener (moveEntry isSupportTouch elm)
              :: Touch.RemoveEventListener (startEntry isSupportTouch elm) :: Touch.calls bound
       /\ Touch.events (Touch.listeners unbound) = Touch.events (Touch.listeners pg)
       /\ Touch.key (Touch.listeners unbound) = (3 + Touch.key (Touch.listeners pg))%nat
       /\ Touch.isBound unbound elm = true
       /\ Touch.bindElement isSupportTouch unbound elm = unbound.
Proof.
  intros Hissued Hfree. cbv zeta.
  set (k := Touch.key (Touch.listeners pg)).
  set (ev := Touch.events (Touch.listeners pg)).
  pose proof (issued_unused _ k Hissued (le_n _)) as H0.
  pose proof (issued_unused _ (S k) Hissued (Nat.le_succ_diag_r _)) as H1.
  assert (Touch.events (Touch.listeners pg) !! Touch.eventIdOf (S (S k)) = None) as H2
    by (apply issued_unused; [assumption | unfold k; lia]).
  fold ev in H0, H1, H2.
  assert (Touch.eventIdOf k <> Touch.eventIdOf (S k)) as N01
    by (intros E; apply eventIdOf_inj in E; lia).
  assert (Touch.eventIdOf k <> Touch.eventIdOf (S (S k))) as N02
    by (intros E; apply eventIdOf_inj in E; lia).
  assert (Touch.eventIdOf (S k) <> Touch.eventIdOf (S (S k))) as N12
    by (intros E; apply eventIdOf_inj in E; lia).
  set (attr := (Touch.eventIdOf k +:+ "/" +:+ Touch.eventIdOf (S k) +:+ "/"
                +:+ Touch.eventIdOf (S (S k)))%string).
  assert (Touch.bindElement isSupportTouch pg elm
          = Touch.makePage (<[elm := attr]> (Touch.touchevents pg))
              (Touch.makeRegistry
                 (<[Touch.eventIdOf (S (S k)) := endEntry isSupportTouch elm]>
                    (<[Touch.eventIdOf (S k) := moveEntry isSupportTouch elm]>
                       (<[Touch.eventIdOf k := startEntry isSupportTouch elm]> ev)))
                 (S (S (S k))))
              (Touch.AddEventListener (endEntry isSupportTouch elm)
                 :: Touch.AddEventListener (moveEntry isSupportTouch elm)
                 :: Touch.AddEventListener (startEntry isSupportTouch elm) :: Touch.calls pg))
    as Hbound.
  { unfold Touch.bindElement. rewrite Hfree. reflexivity. }
  rewrite Hbound. clear Hbound.
  set (bound := Touch.makePage _ _ _).
  split; [reflexivity|].
  assert (Touch.split "/" attr
          = [Touch.eventIdOf k; Touch.eventIdOf (S k); Touch.eventIdOf (S (S k))]) as Hsplit.
  { unfold attr.
    change (Touch.eventIdOf k +:+ "/" +:+ Touch.eventIdOf (S k) +:+ "/"
              +:+ Touch.eventIdOf (S (S k)))%string
      with (Touch.eventIdOf k
              ++ String "/" (Touch.eventIdOf (S k) ++ String "/" (Touch.eventIdOf (S (S k)))))%string.
    rewrite split_first by apply eventIdOf_no_slash.
    rewrite split_first by apply eventIdOf_no_slash.
    now rewrite split_no_slash by apply eventIdOf_no_slash. }
  assert (forall reg cs,
            Touch.isBound (Touch.makePage (<[elm := attr]> (Touch.touchevents pg)) reg cs) elm
            = true) as Hmarked.
  { intros reg cs. unfold Touch.isBound. cbn [Touch.touchevents].
    rewrite lookup_insert_eq. reflexivity. }
  assert (Touch.unbindElement bound elm
          = Normal (Touch.makePage (<[elm := attr]> (Touch.touchevents pg))
              (Touch.makeRegistry ev (S (S (S k))))
              (Touch.RemoveEventListener (endEntry isSupportTouch elm)
                 :: Touch.RemoveEventListener (moveEntry isSupportTouch elm)
                 :: Touch.RemoveEventListener (startEntry isSupportTouch elm)
                 :: Touch.calls bound))) as Hunbound.
  { unfold Touch.unbindElement. unfold bound at 1. rewrite Hmarked. cbn [negb].
    unfold bound at 1. cbn [Touch.touchevents]. rewrite lookup_insert_eq, Hsplit.
    cbn [Touch.forEach]. unfold Touch.removeListener, Touch.remove, bound.
    cbn [bind Touch.listeners Touch.events Touch.key Touch.touchevents Touch.calls].
    rewrite lookup_insert_ne by congruence. rewrite lookup_insert_ne by congruence.
    rewrite lookup_insert_eq.
    cbn [bind Touch.listeners Touch.events Touch.key Touch.touchevents Touch.calls].
    rewrite (delete_insert_ne _ (Touch.eventIdOf k) (Touch.eventIdOf (S (S k)))) by congruence.
    rewrite (delete_insert_ne _ (Touch.eventIdOf k) (Touch.eventIdOf (S k))) by congruence.
    rewrite (delete_insert_id _ _ _ H0).
    rewrite lookup_insert_ne by congruence. rewrite lookup_insert_eq.
    cbn [bind Touch.listeners Touch.events Touch.key Touch.touchevents Touch.calls].
    rewrite (delete_insert_ne _ (Touch.eventIdOf (S k)) (Touch.eventIdOf (S (S k))))
      by congruence.
    rewrite (delete_insert_id _ _ _ H1).
    rewrite lookup_insert_eq.
    cbn [bind Touch.listeners Touch.events Touch.key Touch.touchevents Touch.calls].
    now rewrite (delete_insert_id _ _ _ H2). }
  eexists. split; [exact Hunbound|].
  split; [reflexivity|]. split; [reflexivity|]. split; [reflexivity|].
  split; [apply Hmarked|]. unfold Touch.bindElement. now rewrite Hmarked.
Qed.

End BindFacts.

(** ** Closed instances on the reference converter *)

#[local] Existing Instance TinyColorRef.instance.

Example ref_red_hsv :
  convertColor "#000000" COLOR_CODE.HEX (VString "#ff0000") COLOR_CODE.HSV
  = Normal (VHsv (Hsv.make 0 1 1)).
Proof. vm_compute. reflexivity. Qed.

Example ref_green_hex :
  convertColor "#000000" COLOR_CODE.HSV (VHsv (Hsv.make 120 100 100)) COLOR_CODE.HEX
  = Normal (VString "#00ff00").
Proof. vm_compute. reflexivity. Qed.

(** The scenario of the specification: the top-left corner of the
    spectrum of a red colour is white. *)
Example ref_top_left_white :
  getColorObject stRed exampleRect 0 0 = Normal (Hsv.make 0 0 100)
  /\ convertColor "#000000" COLOR_CODE.HSV (VHsv (Hsv.make 0 0 100)) COLOR_CODE.HEX
     = Normal (VString "#ffffff").
Proof. split; vm_compute; reflexivity. Qed.

(** The scenario of the specification: the partially typed [ff00] is
    emitted verbatim and is not a committed colour. *)
Example hex_input_ff00 :
  isHex "ff00" = false
  /\ exists st' e,
       handleInputHexInput stRed "ff00" = Normal (st', e)
       /\ Tag.heap st' !! Emitted.color e
          = Some (ColorObject COLOR_CODE.HEX (SString "ff00"))
       /\ Tag.lastValidColor st' = "#000000"%string.
Proof.
  split; [reflexivity|]. eexists _, _. split; [vm_compute; reflexivity|].
  split; vm_compute; reflexivity.
Qed.

(** C1, at the failing input: the host updates the component with the
    RGBA colour at location 4 and the map [{HEX: true, RGBA: false}]; after
    the update handler the format of the current colour is RGBA and RGBA
    is still not selectable, whereas the initialisation on the same
    input widens the map. *)
Theorem C1_update_not_widened :
  exists st' : Tag.t,
    update (optsOf 4) stRed = Normal st'
    /\ currentColor st' = Normal (COLOR_CODE.RGBA, SRef 3)
    /\ readMap (Tag.heap st') (Tag.selectableColorCode st') = Normal hexOnly
    /\ selectable hexOnly COLOR_CODE.RGBA = false
    /\ (exists st0 m, init exampleHeap (optsOf 4) = Normal st0
        /\ readMap (Tag.heap st0) (Tag.selectableColorCode st0) = Normal m
        /\ selectable m COLOR_CODE.RGBA = true).
Proof.
  eexists. split; [vm_compute; reflexivity|].
  split; [vm_compute; reflexivity|]. split; [vm_compute; reflexivity|].
  split; [vm_compute; reflexivity|].
  eexists _, _. split; [vm_compute; reflexivity|].
  split; vm_compute; reflexivity.
Qed.

(** C2, at the state of the specification's example: HEX selectable,
    RGBA not, current colour [#ff0000]. *)
Lemma C2_witness :
  currentColor stRed = Normal (COLOR_CODE.HEX, SString "#ff0000")
  /\ indexOf order COLOR_CODE.HEX = Some 0%nat
  /\ readMap (Tag.heap stRed) (Tag.selectableColorCode stRed) = Normal hexOnly
  /\ selectable hexOnly COLOR_CODE.HEX = true
  /\ exists st' e,
       handleColorChangeButtonTap 2 stRed = Some (Normal (st', e))
       /\ Tag.heap st' !! Emitted.color e
          = Some (ColorObject COLOR_CODE.HEX (SString "#ff0000")).
Proof.
  assert (currentColor stRed = Normal (COLOR_CODE.HEX, SString "#ff0000")) as Hcur
    by (vm_compute; reflexivity).
  assert (indexOf order COLOR_CODE.HEX = Some 0%nat) as Hidx by reflexivity.
  assert (readMap (Tag.heap stRed) (Tag.selectableColorCode stRed) = Normal hexOnly) as Hmap
    by (vm_compute; reflexivity).
  assert (selectable hexOnly COLOR_CODE.HEX = true) as Hsel by (vm_compute; reflexivity).
  repeat (split; [assumption|]).
  destruct (C2_handleColorChangeButtonTap stRed COLOR_CODE.HEX (SString "#ff0000")
              hexOnly 0%nat Hcur Hidx Hmap Hsel) as [_ Hemit].
  destruct (Hemit "#ff0000"%string eq_refl eq_refl eq_refl 2%nat (le_n 2))
    as (st' & e & Hrun & Hobj).
  exists st', e. split; [exact Hrun|]. rewrite Hobj. vm_compute. reflexivity.
Defined.

(** C3, above the rectangle: the effective [y] is [.1]. *)
Lemma C3_witness :
  0 <= Rect.height exampleRect
  /\ offsetY exampleRect (-3) < 0
  /\ clampY exampleRect (offsetY exampleRect (-3)) = 1 # 10.
Proof.
  assert (0 <= Rect.height exampleRect) as Hh by (simpl; lra).
  assert (offsetY exampleRect (-3) < 0) as Hneg by (vm_compute; reflexivity).
  repeat (split; [assumption|]).
  exact (proj1 (proj2 (C3_clampY exampleRect (-3))) Hh Hneg).
Defined.

(** C4, at the failing input: the hue slider is moved to 120 on the red
    colour; the computed colour is the chromatic [#00ff00] with hue 120,
    and [latestValidHue] is still 0. *)
Theorem C4_hue_slider_keeps_latestValidHue :
  exists st' e,
    handleHueSliderChange stRed 120 = Normal (st', e)
    /\ Emitted.hsv e = Some (Hsv.make 120 100 100)
    /\ Tag.heap st' !! Emitted.color e = Some (ColorObject COLOR_CODE.HEX (SString "#00ff00"))
    /\ isMonochrome "#000000" COLOR_CODE.HEX (VString "#00ff00") = Normal false
    /\ Tag.latestValidHue stRed = 0
    /\ Tag.latestValidHue st' = 0.
Proof.
  eexists _, _. split; [vm_compute; reflexivity|].
  repeat split; vm_compute; reflexivity.
Qed.

(** The pointer half of the hue memory on the reference converter: a
    drag along the left edge (saturation 0) computes a grey and leaves
    [latestValidHue] as it was, a drag inside the spectrum records the
    hue. *)
Example pointer_records_hue_if_chromatic :
  (exists st' e,
     pointerColorChange (Tag.setLatestValidHue 200 stRed) exampleRect 0 40 = Normal (st', e)
     /\ Emitted.hsv e = Some (Hsv.make 0 0 60)
     /\ Tag.latestValidHue st' = 200)
  /\ (exists st' e,
        pointerColorChange (Tag.setLatestValidHue 200 stRed) exampleRect 100 40 = Normal (st', e)
        /\ Emitted.hsv e = Some (Hsv.make 0 50 60)
        /\ Tag.latestValidHue st' = 0).
Proof.
  split; eexists _, _; (split; [vm_compute; reflexivity|]); split; vm_compute; reflexivity.
Qed.

(** C5, the claim as stated: the saturation of [#fffefd] is 2/255 (0.78
    percent); [getHsv] returns 1, not the 0.78 of a rounding to 1/100 of a
    percent. *)
Lemma C5_counterexample :
  convertToHsv "#000000" COLOR_CODE.HEX (VString "#fffefd") = Normal (Hsv.make 30 (2 # 255) 1)
  /\ roundToHundredthOfPercent (2 # 255) == 78 # 100
  /\ exists out,
       getHsv stPale = Normal out
       /\ Hsv.s out == 1
       /\ ~ (Hsv.s out == roundToHundredthOfPercent (2 # 255)).
Proof.
  split; [vm_compute; reflexivity|]. split; [vm_compute; reflexivity|].
  eexists. split; [vm_compute; reflexivity|].
  split; [vm_compute; reflexivity|]. vm_compute. discriminate.
Qed.

(** C5 on the dark red [#910000]: the brightness 145/255 = 29/51 is rounded to
    57 hundredths, and [57 / 100 * 100] is [56.99999999999999]. *)
Lemma C5_witness :
  Opts.hsv (Tag.opts stDarkRed) = None
  /\ currentColor stDarkRed = Normal (COLOR_CODE.HEX, SString "#910000")
  /\ readSlot (Tag.heap stDarkRed) (SString "#910000") = Normal (VString "#910000")
  /\ convertToHsv (Tag.lastValidColor stDarkRed) COLOR_CODE.HEX (VString "#910000")
     = Normal (Hsv.make 0 1 (29 # 51))
  /\ Math_round (Double.product 1 100) = 100%Z /\ (0 <= 100 <= 100)%Z
  /\ Math_round (Double.product (29 # 51) 100) = 57%Z /\ (0 <= 57 <= 100)%Z
  /\ exists out,
       getHsv stDarkRed = Normal out
       /\ Hsv.h out = 0 /\ Hsv.s out == 100
       /\ Hsv.v out == 57 - (1 # (2 ^ 47)) /\ ~ Hsv.v out == 57.
Proof.
  assert (currentColor stDarkRed = Normal (COLOR_CODE.HEX, SString "#910000")) as Hcur
    by (vm_compute; reflexivity).
  assert (convertToHsv (Tag.lastValidColor stDarkRed) COLOR_CODE.HEX (VString "#910000")
          = Normal (Hsv.make 0 1 (29 # 51))) as Hconv by (vm_compute; reflexivity).
  assert (Math_round (Double.product 1 100) = 100%Z) as Hs by (vm_compute; reflexivity).
  assert (Math_round (Double.product (29 # 51) 100) = 57%Z) as Hv
    by (vm_compute; reflexivity).
  assert (0 <= 100 <= 100)%Z as Hns by lia.
  assert (0 <= 57 <= 100)%Z as Hnv by lia.
  split; [reflexivity|]. split; [assumption|]. split; [reflexivity|].
  repeat (split; [assumption|]).
  destruct (C5_getHsv stDarkRed _ _ _ _ 100 57 eq_refl Hcur eq_refl Hconv Hs Hns Hv Hnv)
    as (out & Hout & Hh & _ & His & _ & Hiv).
  exists out. split; [exact Hout|]. split; [rewrite Hh; reflexivity|].
  split; [|split].
  - destruct (Qeq_dec (Hsv.s out) 100) as [E|E]; [exact E|].
    exfalso. apply His in E. vm_compute in E. intuition discriminate.
  - assert (getHsv stDarkRed
            = Normal (Hsv.make 0 100 (8022036836253695 # 140737488355328))) as Hval
      by (vm_compute; reflexivity).
    rewrite Hval in Hout. injection Hout as <-. vm_compute. reflexivity.
  - apply Hiv. vm_compute. auto 10.
Defined.

(** C6: typing 200 into the red field of the RGBA colour overwrites
    the stored value object, moving the alpha slider on it overwrites its
    alpha, and moving the alpha slider on the red HEX colour turns the
    stored colour object into an RGBA colour: the state stored before the
    event has changed.  The hue slider on the same RGBA colour emits a new
    object and leaves the stored colour and its value as they were. *)
Theorem C6_stored_colour_overwritten :
  (exists st' e,
     handleInputRgbaRedInput stRgba (Some 200) = Normal (st', e)
     /\ Tag.color st' = Tag.color stRgba
     /\ Tag.heap stRgba !! 3%positive = Some (RgbaObject (Rgba.make 10 20 30 1))
     /\ Tag.heap st' !! 3%positive = Some (RgbaObject (Rgba.make 200 20 30 1)))
  /\ (exists st' e,
        handleAlphaSliderChange stRgba 50 = Normal (st', e)
        /\ Emitted.color e = Tag.color stRgba
        /\ Tag.heap st' !! 3%positive = Some (RgbaObject (Rgba.make 10 20 30 (1 # 2))))
  /\ (exists st' e,
        handleAlphaSliderChange stRed 50 = Normal (st', e)
        /\ Emitted.color e = Tag.color stRed
        /\ Tag.heap stRed !! Tag.color stRed
           = Some (ColorObject COLOR_CODE.HEX (SString "#ff0000"))
        /\ Tag.heap st' !! Tag.color stRed = Some (ColorObject COLOR_CODE.RGBA (SRef 6))
        /\ Tag.heap st' !! 6%positive = Some (RgbaObject (Rgba.make 255 0 0 (1 # 2))))
  /\ (exists st' e,
        handleHueSliderChange stRgba 120 = Normal (st', e)
        /\ Tag.heap stRgba !! Emitted.color e = None
        /\ Tag.heap st' !! Tag.color stRgba = Some (ColorObject COLOR_CODE.RGBA (SRef 3))
        /\ Tag.heap st' !! 3%positive = Some (RgbaObject (Rgba.make 10 20 30 1))).
Proof.
  repeat split; eexists _, _; (split; [vm_compute; reflexivity|]);
    repeat split; vm_compute; reflexivity.
Qed.



(** C8, for the committed [fff] and for a rejected keystroke. *)
Lemma C8_witness :
  isHex "fff" = true
  /\ normalizeHexValue id "#000000"%string "fff" = "#fff"%string
  /\ isTypingHex "ffg" = false
  /\ normalizeHexValue id "#000000"%string "ffg" = "#000000"%string.
Proof.
  assert (isHex "fff" = true) as Hh by reflexivity.
  assert (isTypingHex "ffg" = false) as Ht by reflexivity.
  split; [assumption|].
  split; [exact (proj1 (proj2 (C8_normalizeHexValue id "#000000"%string "fff"%string)) Hh)|].
  split; [assumption|].
  exact (proj1 (proj2 (proj2 (C8_normalizeHexValue id "#000000"%string "ffg"%string))) Ht).
Defined.

(** C9, the claim as stated: on a rectangle of width 10.4 a pointer at
    offset 11 is clamped to the width (saturation 100), while a pointer on
    the right edge itself is rounded to offset 10 (saturation 96). *)
Lemma C9_counterexample :
  Rect.width fractionalRect < 11 - Rect.left fractionalRect
  /\ getColorObject stRed fractionalRect 11 0 = Normal (Hsv.make 0 100 100)
  /\ getColorObject stRed fractionalRect (Rect.left fractionalRect + Rect.width fractionalRect) 0
     = Normal (Hsv.make 0 96 100)
  /\ getColorObject stRed fractionalRect 11 0
     <> getColorObject stRed fractionalRect
          (Rect.left fractionalRect + Rect.width fractionalRect) 0.
Proof.
  split; [vm_compute; reflexivity|].
  split; [vm_compute; reflexivity|]. split; [vm_compute; reflexivity|].
  vm_compute. discriminate.
Qed.

Lemma C9_witness :
  getHsv stRed = Normal (Hsv.make 0 100 100)
  /\ 0 < Rect.width exampleRect /\ 0 < Rect.height exampleRect
  /\ (exists c, getColorObject stRed exampleRect 50 40 = Normal c
                /\ Hsv.h c = 0 /\ 0 <= Hsv.s c <= 100 /\ 0 <= Hsv.v c <= 100)
  /\ getColorObject stRed exampleRect (-5) 40
     = getColorObject stRed exampleRect (Rect.left exampleRect) 40
  /\ getColorObject stRed exampleRect 230 40
     = getColorObject stRed exampleRect (Rect.left exampleRect + Rect.width exampleRect) 40.
Proof.
  assert (getHsv stRed = Normal (Hsv.make 0 100 100)) as Hhsv
    by (vm_compute; reflexivity).
  assert (0 < Rect.width exampleRect) as Hw by (simpl; lra).
  assert (0 < Rect.height exampleRect) as Hh by (simpl; lra).
  repeat (split; [assumption|]). split; [|split].
  - destruct (C9_getColorObject stRed exampleRect 50 40 _ Hhsv Hw Hh) as (Hin & _ & _).
    apply Hin; unfold exampleRect; cbn [Rect.left Rect.top Rect.width Rect.height]; lra.
  - destruct (C9_getColorObject stRed exampleRect (-5) 40 _ Hhsv Hw Hh) as (_ & Hleft & _).
    apply Hleft. unfold exampleRect. cbn [Rect.left]. lra.
  - destruct (C9_getColorObject stRed exampleRect 230 40 _ Hhsv Hw Hh) as (_ & _ & Hright).
    apply (Hright 200%Z); unfold exampleRect; cbn [Rect.left Rect.width].
    + reflexivity.
    + lra.
Defined.


(** ** Closed instances of the further properties *)

Lemma X1_witness :
  isTypingHex ("#ff" ++ "00") = true
  /\ isTypingHex "#ff" = true /\ (String.length ("#ff" ++ "00") <= 7)%nat.
Proof.
  assert (isTypingHex ("#ff" ++ "00") = true) as Ht by reflexivity.
  split; [assumption|]. exact (X1_isTypingHex_prefix "#ff" "00" Ht).
Defined.

Lemma X3_witness :
  isTypingHex "FFF" = true
  /\ normalizeHexValue id "#000000"%string "FFF" = "#FFF"%string
  /\ normalizeHexValue id "#000000"%string (normalizeHexValue id "#000000"%string "FFF")
     = normalizeHexValue id "#000000"%string "FFF".
Proof.
  assert (isTypingHex "FFF" = true) as Ht by reflexivity.
  split; [assumption|].
  destruct (X3_normalizeHexValue_accepted "#000000" "FFF" Ht) as (_ & _ & _ & Hhex & Hfix).
  split; [exact (Hhex eq_refl)|exact Hfix].
Defined.

Lemma X4_witness :
  getHsv stDarkRed = Normal (Hsv.make 0 100 (8022036836253695 # 140737488355328))
  /\ exists ps pb,
       getSpectrumPosition stDarkRed "saturation" = Normal (Some ps)
       /\ getSpectrumPosition stDarkRed "brightness" = Normal (Some pb)
       /\ ps = 100 /\ 0 <= pb <= 100.
Proof.
  assert (getHsv stDarkRed
          = Normal (Hsv.make 0 100 (8022036836253695 # 140737488355328))) as Hhsv
    by (vm_compute; reflexivity).
  split; [assumption|].
  destruct (proj1 (X4_getSpectrumPosition stDarkRed _ Hhsv))
    as (ps & pb & Hs & Hb & Hin & _ & _ & Hrange & _).
  exists ps, pb. split; [exact Hs|]. split; [exact Hb|]. split.
  - apply Hin. cbn [Hsv.s]. split; vm_compute; discriminate.
  - apply Hrange. cbn [Hsv.v]. split; vm_compute; discriminate.
Defined.





Lemma X10_witness :
  currentColor stRgba = Normal (COLOR_CODE.RGBA, SRef 3)
  /\ wellTyped (Tag.heap stRgba) COLOR_CODE.RGBA (SRef 3)
  /\ exists st' e (s v : Z),
       handleHueSliderChange stRgba 200 = Normal (st', e)
       /\ Emitted.hsv e = Some (Hsv.make 200 (inject_Z s) (inject_Z v))
       /\ freshEmission stRgba st' e COLOR_CODE.RGBA.
Proof.
  assert (currentColor stRgba = Normal (COLOR_CODE.RGBA, SRef 3)) as Hcur
    by (vm_compute; reflexivity).
  assert (wellTyped (Tag.heap stRgba) COLOR_CODE.RGBA (SRef 3)) as Htyped.
  { right. split; [reflexivity|]. exists 3%positive, exampleRgba.
    split; [reflexivity|]. vm_compute. reflexivity. }
  repeat (split; [assumption|]).
  destruct (X10_handleHueSliderChange stRgba 200 _ _ Hcur Htyped)
    as (st' & e & s & v & Hrun & He & Hfresh & _).
  exists st', e, s, v. auto.
Defined.

Lemma X11_witness :
  currentColor stRed = Normal (COLOR_CODE.HEX, SString "#ff0000")
  /\ wellTyped (Tag.heap stRed) COLOR_CODE.HEX (SString "#ff0000")
  /\ exists st' e lv c',
       handleAlphaSliderChange stRed (7 # 10) = Normal (st', e)
       /\ currentColor st' = Normal (COLOR_CODE.RGBA, SRef lv)
       /\ Tag.heap st' !! lv = Some (RgbaObject c')
       /\ Rgba.a c' = Double.quotient (7 # 10) 100
       /\ ~ Rgba.a c' == 7 # 1000.
Proof.
  assert (currentColor stRed = Normal (COLOR_CODE.HEX, SString "#ff0000")) as Hcur
    by (vm_compute; reflexivity).
  assert (wellTyped (Tag.heap stRed) COLOR_CODE.HEX (SString "#ff0000")) as Htyped
    by (left; eauto).
  repeat (split; [assumption|]).
  destruct (X11_handleAlphaSliderChange stRed (7 # 10) _ _ Hcur Htyped)
    as (st' & e & lv & c' & Hrun & _ & _ & Hcur' & Hval & _ & Ha & _).
  exists st', e, lv, c'. repeat (split; [assumption|]).
  intros E. rewrite Ha in E. vm_compute in E. discriminate.
Defined.


Lemma X13_witness :
  currentColor stBothSelectable = Normal (COLOR_CODE.HEX, SString "#ff0000")
  /\ wellTyped (Tag.heap stBothSelectable) COLOR_CODE.HEX (SString "#ff0000")
  /\ readMap (Tag.heap stBothSelectable) (Tag.selectableColorCode stBothSelectable)
     = Normal allSelectable
  /\ selectable allSelectable COLOR_CODE.HEX = true
  /\ selectable allSelectable COLOR_CODE.RGBA = true
  /\ (1 <= 1)%nat
  /\ exists st' e,
       handleColorChangeButtonTap 1 stBothSelectable = Some (Normal (st', e))
       /\ freshEmission stBothSelectable st' e COLOR_CODE.RGBA.
Proof.
  assert (currentColor stBothSelectable = Normal (COLOR_CODE.HEX, SString "#ff0000")) as Hcur
    by (vm_compute; reflexivity).
  assert (wellTyped (Tag.heap stBothSelectable) COLOR_CODE.HEX (SString "#ff0000")) as Htyped
    by (left; eauto).
  assert (readMap (Tag.heap stBothSelectable) (Tag.selectableColorCode stBothSelectable)
          = Normal allSelectable) as Hmap by (vm_compute; reflexivity).
  assert (selectable allSelectable COLOR_CODE.HEX = true) as Hhex by (vm_compute; reflexivity).
  assert (selectable allSelectable COLOR_CODE.RGBA = true) as Hrgba by (vm_compute; reflexivity).
  assert (1 <= 1)%nat as Hfuel by lia.
  repeat (split; [assumption|]).
  exact (X13_tap_toggles stBothSelectable 1 _ _ _ Hcur Htyped Hmap Hhex Hrgba Hfuel).
Defined.

Lemma X14_witness :
  currentColor stNoneSelectable = Normal (COLOR_CODE.HEX, SString "#ff0000")
  /\ forall fuel, handleColorChangeButtonTap fuel stNoneSelectable = None.
Proof.
  assert (currentColor stNoneSelectable = Normal (COLOR_CODE.HEX, SString "#ff0000")) as Hcur
    by (vm_compute; reflexivity).
  split; [assumption|].
  apply (proj2 (X14_tap_without_selectable stNoneSelectable _ _ Hcur) ∅ 0%nat);
    vm_compute; reflexivity.
Defined.

Lemma X15_witness :
  currentColor stRed = Normal (COLOR_CODE.HEX, SString "#ff0000")
  /\ isTypingHex "ff00" = true
  /\ exists st' e,
       handleInputHexInput stRed "ff00" = Normal (st', e)
       /\ Tag.heap st' = <[Emitted.color e := ColorObject COLOR_CODE.HEX (SString "ff00")]>
                           (Tag.heap stRed).
Proof.
  assert (currentColor stRed = Normal (COLOR_CODE.HEX, SString "#ff0000")) as Hcur
    by (vm_compute; reflexivity).
  assert (isTypingHex "ff00" = true) as Ht by reflexivity.
  repeat (split; [assumption|]).
  destruct (proj1 (X15_handleInputHexInput stRed "ff00" _ _ Hcur) Ht)
    as (st' & e & Hrun & _ & Hheap & _).
  exists st', e. auto.
Defined.

Lemma X16_witness :
  exists st st',
    init exampleHeap (optsOf 1) = Normal st
    /\ update (optsOf 5) st = Normal st'
    /\ reachable st'
    /\ isHex (Tag.lastValidColor st') = true.
Proof.
  destruct (init exampleHeap (optsOf 1)) as [st|] eqn:Hinit;
    [|exfalso; vm_compute in Hinit; discriminate].
  destruct (update (optsOf 5) st) as [st'|] eqn:Hupd.
  - assert (reachable st') as Hreach.
    { apply (reachable_step st st'); [now apply (reachable_init exampleHeap (optsOf 1))|].
      now apply (step_update (optsOf 5)). }
    exists st, st'. split; [reflexivity|]. split; [exact Hupd|]. split; [exact Hreach|].
    exact (X16_lastValidColor_committed st' Hreach).
  - exfalso. vm_compute in Hinit. injection Hinit as <-. vm_compute in Hupd. discriminate.
Defined.

Lemma X17_witness :
  exists st1 st2,
    update (optsOf 1) stBeforeTyping = Normal st1 /\ Opts.hsv (optsOf 1) = None
    /\ currentColor st1 = Normal (COLOR_CODE.HEX, SString "#ff0000")
    /\ isHex "#ff0000" = true
    /\ update (optsOf 6) st1 = Normal st2 /\ Opts.hsv (optsOf 6) = None
    /\ currentColor st2 = Normal (COLOR_CODE.HEX, SString "ff00")
    /\ isHex "ff00" = false
    /\ Tag.lastValidColor st2 = "#ff0000"%string
    /\ getHsv st2 = getHsv st1.
Proof.
  destruct (update (optsOf 1) stBeforeTyping) as [st1|] eqn:Hupd1;
    [|exfalso; vm_compute in Hupd1; discriminate].
  destruct (update (optsOf 6) st1) as [st2|] eqn:Hupd2;
    [|exfalso; vm_compute in Hupd1; injection Hupd1 as <-; vm_compute in Hupd2; discriminate].
  assert (currentColor st1 = Normal (COLOR_CODE.HEX, SString "#ff0000")) as Hcur1.
  { vm_compute in Hupd1. injection Hupd1 as <-. vm_compute. reflexivity. }
  assert (currentColor st2 = Normal (COLOR_CODE.HEX, SString "ff00")) as Hcur2.
  { vm_compute in Hupd1. injection Hupd1 as <-. vm_compute in Hupd2. injection Hupd2 as <-.
    vm_compute. reflexivity. }
  exists st1, st2.
  destruct (X17_typing_keeps_last_colour integerToString (optsOf 1) (optsOf 6)
              stBeforeTyping st1 st2 "#ff0000" "ff00"
              Hupd1 eq_refl Hcur1 eq_refl Hupd2 eq_refl Hcur2 eq_refl) as (Hlast & Hhsv & _).
  repeat split; assumption.
Defined.

Lemma X18_witness :
  currentColor stRed = Normal (COLOR_CODE.HEX, SString "#ff0000")
  /\ isHex (Tag.lastValidColor stRed) = true
  /\ exists style,
       getColorStyle integerToString stRed = Normal style /\ isHex style = true.
Proof.
  assert (currentColor stRed = Normal (COLOR_CODE.HEX, SString "#ff0000")) as Hcur
    by (vm_compute; reflexivity).
  assert (isHex (Tag.lastValidColor stRed) = true) as Hlast by reflexivity.
  repeat (split; [assumption|]).
  destruct (X18_hex_display integerToString stRed "#ff0000" Hcur Hlast)
    as (style & Hstyle & Hhex & _).
  exists style. auto.
Defined.

Lemma X19_witness :
  exists st,
    init exampleHeap (Opts.make None None None true) = Normal st
    /\ Tag.lastValidColor st = "#000000"%string
    /\ currentColor st = Normal (COLOR_CODE.HEX, SString EmptyString).
Proof.
  destruct (init exampleHeap (Opts.make None None None true)) as [st|] eqn:Hinit;
    [|exfalso; vm_compute in Hinit; discriminate].
  exists st. split; [reflexivity|].
  destruct (X19_init _ _ _ Hinit) as (Hlast & _ & _ & _ & _ & _ & Hdefault).
  split; [exact Hlast|]. now apply Hdefault.
Defined.

Lemma examplePage_issued : Touch.issued (Touch.listeners examplePage).
Proof.
  intros eventId. cbn [examplePage Touch.listeners Touch.events Touch.key].
  destruct (decide (eventId = Touch.eventIdOf 1)) as [->|Hne].
  - intros _. exists 1%nat. split; [lia|reflexivity].
  - rewrite lookup_insert_ne by congruence. rewrite lookup_empty. now intros [? [=]].
Qed.

Lemma X22_witness :
  Touch.issued (Touch.listeners examplePage)
  /\ Touch.events (Touch.listeners examplePage)
       !! (Touch.add (Touch.listeners examplePage) (moveEntry true 7)).1.1 = None
  /\ Touch.issued (Touch.add (Touch.listeners examplePage) (moveEntry true 7)).1.2.
Proof.
  pose proof examplePage_issued as Hissued.
  split; [assumption|].
  destruct (X22_registry_ids (Touch.listeners examplePage) (moveEntry true 7) "t_0" Hissued)
    as (_ & Hadd & _ & Hfresh & _).
  split; assumption.
Defined.

Lemma X23_witness :
  Touch.issued (Touch.listeners examplePage)
  /\ Touch.remove (Touch.add (Touch.listeners examplePage) (moveEntry true 7)).1.2
                  (Touch.add (Touch.listeners examplePage) (moveEntry true 7)).1.1
     = Normal (Touch.makeRegistry (Touch.events (Touch.listeners examplePage)) 3,
               Some (Touch.RemoveEventListener (moveEntry true 7)))
  /\ Touch.remove (Touch.listeners examplePage) "toString" = TypeError.
Proof.
  pose proof examplePage_issued as Hissued.
  split; [assumption|].
  destruct (X23_registry_round_trip (Touch.listeners examplePage) (moveEntry true 7) Hissued)
    as (Hremove & _ & Hunused).
  split; [exact Hremove|]. apply (Hunused "toString"%string). vm_compute. reflexivity.
Defined.

Lemma X25_witness :
  Touch.issued (Touch.listeners examplePage)
  /\ Touch.isBound examplePage 7 = false
  /\ exists unbound,
       Touch.unbindElement (Touch.bindElement true examplePage 7) 7 = Normal unbound
       /\ Touch.events (Touch.listeners unbound) = Touch.events (Touch.listeners examplePage)
       /\ Touch.bindElement true unbound 7 = unbound.
Proof.
  pose proof examplePage_issued as Hissued.
  assert (Touch.isBound examplePage 7 = false) as Hfree by reflexivity.
  repeat (split; [assumption|]).
  destruct (X25_bind_unbind true examplePage 7 Hissued Hfree)
    as (_ & unbound & Hrun & _ & Hevents & _ & _ & Hskip).
  exists unbound. auto.
Defined.


Lemma X21_witness :
  String.prefix "parent." "handleTap" = false
  /\ Touch.stripParent "handleTap" = "handleTap"%string
  /\ Touch.stripParent "parent.handleTap" = "handleTap"%string.
Proof.
  assert (String.prefix "parent." "handleTap" = false) as Hprefix by reflexivity.
  split; [assumption|].
  destruct (X21_handler_name "handleTap" Touch.idle (fun _ => true)) as (Hstrip & Hplain & _).
  split; [exact (Hplain Hprefix)|exact Hstrip].
Defined.

(** The ids and the attribute of the example page after binding. *)
Example bind_example :
  Touch.touchevents (Touch.bindElement true examplePage 7) !! 7%nat = Some "t_2/t_3/t_4"%string
  /\ Touch.split "/" "t_2/t_3/t_4" = ["t_2"; "t_3"; "t_4"]%string.
Proof. split; vm_compute; reflexivity. Qed.

(** The product of doubles squares the whole distances up to 10
    exactly. *)
Lemma productSquare_whole (d : Z) :
  (-10 <= d <= 10)%Z -> productSquare (Double.ofZ d) = Double.ofZ (d * d).
Proof.
  intros Hd.
  assert (In d wholeDistances) as Hin.
  { unfold wholeDistances.
    replace d with (Z.of_nat (Z.to_nat (d + 10)) - 10)%Z by lia.
    apply (in_map (fun n => Z.of_nat n - 10)%Z), in_seq. lia. }
  assert (Forall (fun d => productSquare (Double.ofZ d) = Double.ofZ (d * d))
                 wholeDistances) as Hall.
  { cbv [wholeDistances map seq].
    repeat (constructor; [vm_compute; reflexivity|]). constructor. }
  exact (proj1 (List.Forall_forall _ _) Hall d Hin).
Qed.

(** A tap and two drags: after a press at (100, 100) a move by 6 and 7
    pixels keeps the tap and a move by 6 and 8 pixels (distance 10)
    cancels it; so does a move by 6 and 7.999999999999999 pixels, whose
    exact distance is below 10 and whose distance in doubles is 10. *)
Example tap_example :
  Touch.touchEnd (Touch.press productSquare (Double.ofZ 100) (Double.ofZ 100)
                    [(Double.ofZ 106, Double.ofZ 107); (Double.ofZ 100, Double.ofZ 100)])
                 (Some "parent.handleTap"%string) (fun _ => true)
  = Normal (Touch.makeGesture false (Double.ofZ 100) (Double.ofZ 100), Some "handleTap"%string)
  /\ Touch.touchEnd (Touch.press productSquare (Double.ofZ 100) (Double.ofZ 100)
                       [(Double.ofZ 106, Double.ofZ 108); (Double.ofZ 100, Double.ofZ 100)])
                    (Some "parent.handleTap"%string) (fun _ => true)
     = Normal (Touch.makeGesture false (Double.ofZ 100) (Double.ofZ 100), None)
  /\ Touch.outOfRange productSquare (Double.ofZ 6)
                      (Double.ofQ (7999999999999999 # 1000000000000000)) = true
  /\ 6 * 6 + (7999999999999999 # 1000000000000000) * (7999999999999999 # 1000000000000000)
     < 10 * 10.
Proof. repeat split; vm_compute; reflexivity. Qed.

Lemma X20_witness :
  (forall d : Z, (-10 <= d <= 10)%Z -> productSquare (Double.ofZ d) = Double.ofZ (d * d))
  /\ (-10 <= 6 <= 10)%Z /\ (-10 <= 7 <= 10)%Z /\ (-10 <= 8 <= 10)%Z
  /\ Touch.outOfRange productSquare (Double.ofZ 6) (Double.ofZ 8) = true
  /\ Touch.outOfRange productSquare (Double.ofZ 6) (Double.ofZ 7) = false.
Proof.
  assert (-10 <= 6 <= 10)%Z as H6 by lia.
  assert (-10 <= 7 <= 10)%Z as H7 by lia.
  assert (-10 <= 8 <= 10)%Z as H8 by lia.
  split; [exact productSquare_whole|]. repeat (split; [assumption|]).
  destruct (X20_tap productSquare (Double.ofZ 0) (Double.ofZ 0) [] "handleTap" (fun _ => true))
    as (_ & _ & Hwhole).
  split; [exact (Hwhole productSquare_whole 6%Z 8%Z H6 H8)
         |exact (Hwhole productSquare_whole 6%Z 7%Z H6 H7)].
Defined.
